(** * Voice-recording backend: connection manager, transcription service and
      WebSocket endpoint

    A shallow embedding of [backend/app/websocket_manager.py],
    [backend/app/transcription.py] and the WebSocket part of
    [backend/app/main.py].

    Python objects are modelled as the code uses them:
    - a [dict] is an association list in insertion order (Python dicts iterate
      in insertion order, and two of the modelled loops iterate over one);
    - a [set] of client ids is a duplicate-free list in the set's iteration
      order (the order of a set of strings depends on the string hashes and is
      therefore arbitrary, but it is fixed while the set is not modified);
    - a raised exception is the [Raise] outcome of a computation;
    - floats are real numbers ([avg_logprob], the confidence), so rounding,
      infinities and NaN are outside the model;
    - the trimming of text is modelled on ASCII text, and what is proved of
      trimmed text assumes it;
    - [await] points are sequential: a coroutine of the manager runs without
      another task touching the manager in between. *)

From Stdlib Require Import List String Ascii ZArith NArith QArith Bool Arith.
From Stdlib Require Import Lia Reals Lra DecimalString.
From Stdlib Require Strings.Byte.
Import ListNotations.

Local Close Scope Q_scope.
Local Open Scope string_scope.
Local Open Scope list_scope.

(** ** Python outcomes, dictionaries and sets *)

Module Py.

(** The exception classes that occur.  Every one of them is a subclass of
    [Exception], so an [except Exception] clause catches all of them. *)
Inductive exn_kind : Set :=
| RuntimeError
| ValueError
| TypeError
| AttributeError
| BinasciiError
| EngineError
| TransportError
| WebSocketDisconnect
| ModuleNotFoundError.

(** An exception object: its class and [str(e)]. *)
Record exn : Set := Exn { exn_class : exn_kind; exn_str : string }.

Inductive outcome (A : Type) : Type :=
| Return (a : A)
| Raise (e : exn).

Arguments Return {A} a.
Arguments Raise {A} e.

(** [dict]: association list, keys unique, insertion order kept. *)
Definition dict (V : Type) : Type := list (string * V).

Fixpoint dict_get {V : Type} (k : string) (d : dict V) : option V :=
  match d with
  | [] => None
  | (k', v) :: d' => if String.eqb k' k then Some v else dict_get k d'
  end.

(** [k in d] *)
Definition dict_mem {V : Type} (k : string) (d : dict V) : bool :=
  match dict_get k d with
  | Some _ => true
  | None => false
  end.

(** [d[k] = v]: an existing key keeps its position, a new key goes last. *)
Fixpoint dict_set {V : Type} (k : string) (v : V) (d : dict V) : dict V :=
  match d with
  | [] => [(k, v)]
  | (k', v') :: d' =>
      if String.eqb k' k then (k, v) :: d' else (k', v') :: dict_set k v d'
  end.

(** [del d[k]] (the callers test [k in d] first). *)
Definition dict_del {V : Type} (k : string) (d : dict V) : dict V :=
  filter (fun kv => negb (String.eqb (fst kv) k)) d.

Definition dict_keys {V : Type} (d : dict V) : list string := map fst d.

(** [set] of strings. *)
Definition pyset : Type := list string.

Definition set_mem (x : string) (s : pyset) : bool :=
  existsb (String.eqb x) s.

Definition set_add (x : string) (s : pyset) : pyset :=
  if set_mem x s then s else s ++ [x].

(** [s.remove(x)] (the caller tests [x in s] first). *)
Definition set_remove (x : string) (s : pyset) : pyset :=
  filter (fun y => negb (String.eqb y x)) s.

(** A JSON scalar as it arrives in a client message; [JNone] is what
    [data.get] gives for a missing field. *)
Inductive jval : Type :=
| JNone
| JInt (z : Z)
| JStr (s : string).

(** A value of an outbound message: a client-supplied scalar passed through,
    or a float computed by the server. *)
Inductive mval : Type :=
| MJson (v : jval)
| MFloat (r : R).

(** An outbound message is a dict literal. *)
Definition Message : Type := dict mval.

(** [str(v)], as used by the f-strings. *)
Definition py_str (v : jval) : string :=
  match v with
  | JNone => "None"
  | JInt z => NilZero.string_of_int (Z.to_int z)
  | JStr s => s
  end.

(** [v == s] for a string literal [s]. *)
Definition jval_eq_str (v : jval) (s : string) : bool :=
  match v with
  | JStr s' => String.eqb s' s
  | _ => false
  end.

End Py.

Import Py.

(** ** [base64.b64decode], as [handle_audio_chunk] calls it

    The library function is not part of the repository; it is modelled after
    CPython's [binascii.a2b_base64] in its default, non-strict mode:
    characters outside the alphabet are skipped, and the input is rejected
    when the data characters do not fill the last group of four.  The text of
    the [binascii.Error] is shortened (the server only logs it). *)

Module Base64.

Definition byte_of (n : N) : Byte.byte :=
  match Byte.of_N (n mod 256) with
  | Some b => b
  | None => Byte.x00
  end.

(** [table_a2b_base64] *)
Definition b64_value (c : ascii) : option N :=
  let n := N_of_ascii c in
  if ((65 <=? n) && (n <=? 90))%N then Some (n - 65)%N
  else if ((97 <=? n) && (n <=? 122))%N then Some (n - 71)%N
  else if ((48 <=? n) && (n <=? 57))%N then Some (n + 4)%N
  else if (n =? 43)%N then Some 62%N
  else if (n =? 47)%N then Some 63%N
  else None.

Definition incorrect_padding : exn := Exn BinasciiError "Incorrect padding".
Definition invalid_length : exn :=
  Exn BinasciiError "Invalid base64-encoded string".

Fixpoint a2b_loop (cs : list ascii) (quad_pos leftchar pads : N)
    (out : list Byte.byte) : outcome (list Byte.byte) :=
  match cs with
  | [] =>
      if (quad_pos =? 0)%N then Return out
      else if (quad_pos =? 1)%N then Raise invalid_length
      else Raise incorrect_padding
  | c :: cs' =>
      if Ascii.eqb c "="%char then
        if (2 <=? quad_pos)%N then
          if (4 <=? quad_pos + (pads + 1))%N then Return out
          else a2b_loop cs' quad_pos leftchar (pads + 1)%N out
        else a2b_loop cs' quad_pos leftchar pads out
      else
        match b64_value c with
        | None => a2b_loop cs' quad_pos leftchar pads out
        | Some v =>
            if (quad_pos =? 0)%N then a2b_loop cs' 1%N v 0%N out
            else if (quad_pos =? 1)%N then
              a2b_loop cs' 2%N (N.land v 15) 0%N
                (out ++ [byte_of (N.lor (N.shiftl leftchar 2) (N.shiftr v 4))])
            else if (quad_pos =? 2)%N then
              a2b_loop cs' 3%N (N.land v 3) 0%N
                (out ++ [byte_of (N.lor (N.shiftl leftchar 4) (N.shiftr v 2))])
            else
              a2b_loop cs' 0%N 0%N 0%N
                (out ++ [byte_of (N.lor (N.shiftl leftchar 6) v)])
        end
  end.

Definition a2b_base64 (s : string) : outcome (list Byte.byte) :=
  a2b_loop (list_ascii_of_string s) 0%N 0%N 0%N [].

Definition is_ascii (s : string) : bool :=
  forallb (fun c => (N_of_ascii c <? 128)%N) (list_ascii_of_string s).

(** [base64.b64decode(s)] for the value found under ["audioData"]. *)
Definition b64decode (s : jval) : outcome (list Byte.byte) :=
  match s with
  | JStr s =>
      if is_ascii s then a2b_base64 s
      else Raise (Exn ValueError
                    "string argument should contain only ASCII characters")
  | _ =>
      Raise (Exn TypeError
               "argument should be a bytes-like object or ASCII string")
  end.

End Base64.

(** ** [backend/app/transcription.py] *)

Module Transcription.

(** A sub-segment as the engine reports it. *)
Record Segment : Type := { text : string; avg_logprob : R }.

(** What iterating over the engine's [segments] gives: the engine returns a
    lazy generator, so a fault can come before the first sub-segment or after
    any number of them. *)
Inductive SegStream : Type :=
| SDone
| SYield (segment : Segment) (rest : SegStream)
| SFault (e : exn).

(** [self.model.transcribe(audio_array, ...)]: the engine is an external
    collaborator, given by what it produces for an audio array. *)
Definition Engine : Type := list Q -> SegStream.

Record TranscriptionService : Type :=
  { model : option Engine; initialized : bool }.

(** [TranscriptionService.__init__] *)
Definition init : TranscriptionService :=
  {| model := None; initialized := false |}.

(** [initialize]: [primary] and [cpu] are the outcomes of constructing the
    model on the configured device and on the CPU. *)
Definition initialize (primary cpu : outcome Engine)
    (self : TranscriptionService) : outcome unit * TranscriptionService :=
  match primary with
  | Return m => (Return tt, {| model := Some m; initialized := true |})
  | Raise _ =>
      match cpu with
      | Return m => (Return tt, {| model := Some m; initialized := true |})
      | Raise e2 => (Raise e2, self)
      end
  end.

Definition is_initialized (self : TranscriptionService) : bool :=
  initialized self.

(** [np.frombuffer(audio_bytes, dtype=np.int16)]: little-endian signed 16-bit
    samples; a buffer of odd length is rejected. *)
Definition int16_of (lo hi : Byte.byte) : Z :=
  let u := (Z.of_N (Byte.to_N lo) + 256 * Z.of_N (Byte.to_N hi))%Z in
  if (u <? 32768)%Z then u else (u - 65536)%Z.

Fixpoint frombuffer_int16 (bs : list Byte.byte) : outcome (list Z) :=
  match bs with
  | [] => Return []
  | [_] =>
      Raise (Exn ValueError "buffer size must be a multiple of element size")
  | lo :: hi :: rest =>
      match frombuffer_int16 rest with
      | Return zs => Return (int16_of lo hi :: zs)
      | Raise e => Raise e
      end
  end.

(** [_bytes_to_audio_array]: a sample divided by 32768 is exact in float32,
    so the array is a list of rationals. *)
Definition _bytes_to_audio_array (audio_bytes : list Byte.byte)
    : outcome (list Q) :=
  match frombuffer_int16 audio_bytes with
  | Return zs => Return (map (fun z => Qmake z 32768) zs)
  | Raise e => Raise e
  end.

(** [str.isspace] on ASCII characters (tab to carriage return, the four
    separators 28 to 31, and the space).  Outside ASCII Python has more
    whitespace (U+0085, U+00A0, U+2003, ...), which is not modelled: what is
    stated about [strip] is stated of ASCII text. *)
Definition isspace (c : ascii) : bool :=
  let n := N_of_ascii c in
  (((9 <=? n) && (n <=? 13)) || ((28 <=? n) && (n <=? 32)))%N.

Fixpoint lstrip_chars (cs : list ascii) : list ascii :=
  match cs with
  | [] => []
  | c :: cs' => if isspace c then lstrip_chars cs' else cs
  end.

(** [str.strip()], on ASCII text. *)
Definition strip (s : string) : string :=
  string_of_list_ascii
    (rev (lstrip_chars (rev (lstrip_chars (list_ascii_of_string s))))).

(** The [for segment in segments] loop with its three accumulators. *)
Fixpoint collect (segments : SegStream) (transcript_text : string)
    (total_confidence : R) (segment_count : nat)
    : outcome (string * R * nat) :=
  match segments with
  | SDone => Return (transcript_text, total_confidence, segment_count)
  | SYield segment rest =>
      collect rest (transcript_text ++ (text segment ++ " "))
        (total_confidence + avg_logprob segment)%R (S segment_count)
  | SFault e => Raise e
  end.

(** The body of the [try] block of [transcribe_chunk]. *)
Definition transcribe_body (self : TranscriptionService)
    (audio_bytes : list Byte.byte) : outcome (string * R) :=
  match _bytes_to_audio_array audio_bytes with
  | Raise e => Raise e
  | Return audio_array =>
      match model self with
      | None =>
          Raise (Exn AttributeError
                   "'NoneType' object has no attribute 'transcribe'")
      | Some m =>
          match collect (m audio_array) "" 0%R 0%nat with
          | Raise e => Raise e
          | Return (transcript_text, total_confidence, segment_count) =>
              let transcript_text := strip transcript_text in
              let confidence :=
                if (0 <? segment_count)%nat then
                  let avg_confidence :=
                    (total_confidence / INR segment_count)%R in
                  Rmax 0 (Rmin 1 (exp avg_confidence))
                else 0%R in
              Return (transcript_text, confidence)
          end
      end
  end.

Definition not_initialized : exn :=
  Exn RuntimeError "Transcription service not initialized".

Definition transcribe_chunk (self : TranscriptionService)
    (audio_bytes : list Byte.byte) : outcome (string * R) :=
  if negb (initialized self) then Raise not_initialized
  else
    match transcribe_body self audio_bytes with
    | Return r => Return r
    | Raise _ => Return ("", 0%R)
    end.

(** [transcribe_file]: the same loop on what the model yields for a file
    path, given by [file_segments]; there is no [try] around it. *)
Definition transcribe_file (self : TranscriptionService)
    (file_segments : string -> SegStream) (file_path : string)
    : outcome (string * R) :=
  if negb (initialized self) then Raise not_initialized
  else
    match model self with
    | None =>
        Raise (Exn AttributeError
                 "'NoneType' object has no attribute 'transcribe'")
    | Some _ =>
        match collect (file_segments file_path) "" 0%R 0%nat with
        | Raise e => Raise e
        | Return (transcript_text, total_confidence, segment_count) =>
            let transcript_text := strip transcript_text in
            let confidence :=
              if (0 <? segment_count)%nat then
                let avg_confidence :=
                  (total_confidence / INR segment_count)%R in
                Rmax 0 (Rmin 1 (exp avg_confidence))
              else 0%R in
            Return (transcript_text, confidence)
        end
    end.

End Transcription.

(** ** State, effects and the monad of the coroutines *)

Module Runtime.

(** A [WebSocket] object is identified by its [id(websocket)]. *)
Definition WebSocket : Type := nat.

(** The two dictionaries of a [WebSocketManager]. *)
Record Manager : Type :=
  { active_connections : dict WebSocket;
    session_clients : dict pyset }.

(** What the process does to the outside, in order: every [send_json] with
    its result, and as markers every call of [disconnect] and of
    [transcribe_chunk]. *)
Inductive Event : Type :=
| EvSend (websocket : WebSocket) (message : Message) (ok : bool)
| EvDisconnect (client_id : string)
| EvTranscribe (audio_bytes : list Byte.byte).

(** The process state: the module-level [ws_manager], the service stored in
    [app.state], and the events so far. *)
Record World : Type :=
  { ws_manager : Manager;
    transcription_service : Transcription.TranscriptionService;
    trace : list Event }.

(** The transport: whether [accept] on a socket raises, and whether a
    [send_json] on a socket raises, given everything that happened before. *)
Record Env : Type :=
  { accept_result : WebSocket -> option exn;
    send_result : list Event -> WebSocket -> option exn }.

Definition M (A : Type) : Type := World -> outcome A * World.

Definition ret {A : Type} (a : A) : M A := fun w => (Return a, w).

Definition raise {A : Type} (e : exn) : M A := fun w => (Raise e, w).

Definition bind {A B : Type} (m : M A) (k : A -> M B) : M B :=
  fun w =>
    match m w with
    | (Return a, w') => k a w'
    | (Raise e, w') => (Raise e, w')
    end.

(** [try: m  except Exception as e: handler e] *)
Definition try_except {A : Type} (m : M A) (handler : exn -> M A) : M A :=
  fun w =>
    match m w with
    | (Return a, w') => (Return a, w')
    | (Raise e, w') => handler e w'
    end.

(** The outcome of a call that has no effect of its own. *)
Definition lift {A : Type} (o : outcome A) : M A := fun w => (o, w).

Definition emit (ev : Event) : M unit :=
  fun w =>
    (Return tt,
     {| ws_manager := ws_manager w;
        transcription_service := transcription_service w;
        trace := trace w ++ [ev] |}).

Definition get_manager : M Manager := fun w => (Return (ws_manager w), w).

Definition get_service : M Transcription.TranscriptionService :=
  fun w => (Return (transcription_service w), w).

Definition modify_manager (f : Manager -> Manager) : M unit :=
  fun w =>
    (Return tt,
     {| ws_manager := f (ws_manager w);
        transcription_service := transcription_service w;
        trace := trace w |}).

Declare Scope py_scope.
Delimit Scope py_scope with py.
Notation "x <- m ;; k" := (bind m (fun x => k))
  (at level 61, m at next level, right associativity) : py_scope.
Notation "m ;; k" := (bind m (fun _ => k))
  (at level 61, right associativity) : py_scope.

Section Transport.
Context (env : Env).

(** [await websocket.accept()] *)
Definition accept (websocket : WebSocket) : M unit :=
  match accept_result env websocket with
  | None => ret tt
  | Some e => raise e
  end.

(** [await websocket.send_json(message)] *)
Definition send_json (websocket : WebSocket) (message : Message) : M unit :=
  fun w =>
    match send_result env (trace w) websocket with
    | None => emit (EvSend websocket message true) w
    | Some e =>
        bind (emit (EvSend websocket message false)) (fun _ => raise e) w
    end.

End Transport.

(** A [for] loop over a collection that lives in the manager.  The iterator
    remembers the size the collection had when the loop began; each step
    first compares the current size with it and raises [changed] when they
    differ, and only then looks for the next element.  [n] bounds the number
    of remaining steps ([n + pos = used0] on entry). *)
Fixpoint py_for {X Acc : Type} (live : Manager -> list X) (changed : exn)
    (body : X -> Acc -> M Acc) (n pos used0 : nat) (acc : Acc) : M Acc :=
  fun w =>
    let items := live (ws_manager w) in
    if negb (List.length items =? used0)%nat then (Raise changed, w)
    else
      match nth_error items pos, n with
      | Some x, S n' =>
          bind (body x acc)
            (fun acc' => py_for live changed body n' (S pos) used0 acc') w
      | _, _ => (Return acc, w)
      end.

Definition py_for_each {X Acc : Type} (live : Manager -> list X)
    (changed : exn) (body : X -> Acc -> M Acc) (acc : Acc) : M Acc :=
  fun w =>
    let used0 := List.length (live (ws_manager w)) in
    py_for live changed body used0 0 used0 acc w.

(** A [for] loop over a local list. *)
Fixpoint for_list {X : Type} (xs : list X) (body : X -> M unit) : M unit :=
  match xs with
  | [] => ret tt
  | x :: xs' => bind (body x) (fun _ => for_list xs' body)
  end.

Definition set_changed : exn :=
  Exn RuntimeError "Set changed size during iteration".
Definition dict_changed : exn :=
  Exn RuntimeError "dictionary changed size during iteration".

End Runtime.

Import Runtime.
Local Open Scope py_scope.

(** ** [backend/app/websocket_manager.py] *)

Module WebSocketManager.

(** [WebSocketManager.__init__] *)
Definition init : Manager :=
  {| active_connections := []; session_clients := [] |}.

(** The effect of [disconnect] on the two dictionaries. *)
Definition disconnect_manager (client_id : string) (m : Manager) : Manager :=
  {| active_connections :=
       if dict_mem client_id (active_connections m)
       then dict_del client_id (active_connections m)
       else active_connections m;
     session_clients :=
       map (fun entry : string * pyset =>
              let (session_id, clients) := entry in
              (session_id,
               if set_mem client_id clients
               then set_remove client_id clients
               else clients))
           (session_clients m) |}.

(** The effect of [register_session_client] on the two dictionaries. *)
Definition register_manager (session_id client_id : string) (m : Manager)
    : Manager :=
  let sessions :=
    if dict_mem session_id (session_clients m) then session_clients m
    else dict_set session_id [] (session_clients m) in
  {| active_connections := active_connections m;
     session_clients :=
       match dict_get session_id sessions with
       | Some clients =>
           dict_set session_id (set_add client_id clients) sessions
       | None => sessions
       end |}.

(** The members of a session, as the loop of [broadcast_to_session] sees
    them: the set object stored under [session_id]. *)
Definition session_set (session_id : string) (m : Manager) : pyset :=
  match dict_get session_id (session_clients m) with
  | Some clients => clients
  | None => []
  end.

Section Methods.
Context (env : Env).

Definition connect (websocket : WebSocket) (client_id : string) : M unit :=
  accept env websocket ;;
  modify_manager (fun m =>
    {| active_connections :=
         dict_set client_id websocket (active_connections m);
       session_clients := session_clients m |}).

Definition disconnect (client_id : string) : M unit :=
  emit (EvDisconnect client_id) ;;
  modify_manager (disconnect_manager client_id).

Definition send_to_client (client_id : string) (message : Message) : M unit :=
  m <- get_manager ;;
  match dict_get client_id (active_connections m) with
  | Some websocket =>
      try_except (send_json env websocket message)
        (fun _ => disconnect client_id)
  | None => ret tt
  end.

(** One turn of the loop of [broadcast]: the [try] around the send, with
    the local list [disconnected_clients] passed along. *)
Definition broadcast_step (message : Message) (item : string * WebSocket)
    (disconnected_clients : list string) : M (list string) :=
  let (client_id, websocket) := item in
  try_except
    (send_json env websocket message ;; ret disconnected_clients)
    (fun _ => ret (disconnected_clients ++ [client_id])).

Definition broadcast (message : Message) : M unit :=
  disconnected_clients <-
    py_for_each active_connections dict_changed (broadcast_step message) [] ;;
  for_list disconnected_clients disconnect.

Definition broadcast_to_session (session_id : string) (message : Message)
    : M unit :=
  m <- get_manager ;;
  if dict_mem session_id (session_clients m) then
    py_for_each (session_set session_id) set_changed
      (fun (client_id : string) (_ : unit) => send_to_client client_id message)
      tt
  else ret tt.

Definition register_session_client (session_id client_id : string) : M unit :=
  modify_manager (register_manager session_id client_id).

Definition get_active_count : M nat :=
  m <- get_manager ;; ret (List.length (active_connections m)).

Definition get_session_client_count (session_id : string) : M nat :=
  m <- get_manager ;;
  match dict_get session_id (session_clients m) with
  | Some clients => ret (List.length clients)
  | None => ret 0%nat
  end.

End Methods.

End WebSocketManager.

(** ** [backend/app/main.py]: the WebSocket endpoint *)

Module Main.

(** [data.get(key)] *)
Definition get (data : dict jval) (key : string) : jval :=
  match dict_get key data with
  | Some v => v
  | None => JNone
  end.

Definition ack_message (chunk_id : jval) : Message :=
  [("type", MJson (JStr "ack")); ("chunkId", MJson chunk_id)].

Definition transcript_message (session_id chunk_id timestamp : jval)
    (transcript_text : string) (confidence : R) : Message :=
  [("type", MJson (JStr "transcript"));
   ("id", MJson (JStr (py_str session_id ++ "_" ++ py_str chunk_id)));
   ("sessionId", MJson session_id);
   ("text", MJson (JStr transcript_text));
   ("timestamp", MJson timestamp);
   ("confidence", MFloat confidence);
   ("language", MJson (JStr "en"))].

Definition error_message (chunk_id : jval) (e : exn) : Message :=
  [("type", MJson (JStr "error"));
   ("chunkId", MJson chunk_id);
   ("error", MJson (JStr (exn_str e)))].

Definition pong_message : Message := [("type", MJson (JStr "pong"))].

(** The ["type"] of an outbound message. *)
Definition message_type (message : Message) : option string :=
  match dict_get "type" message with
  | Some (MJson (JStr t)) => Some t
  | _ => None
  end.

(** What the receive loop gets from [websocket.receive_json()]: a JSON
    object, or an exception ([WebSocketDisconnect] when the client went away,
    another one for text that is not JSON). *)
Inductive Recv : Type :=
| RecvJson (data : dict jval)
| RecvRaise (e : exn).

(** The connection after the endpoint has consumed its input: still in the
    receive loop, or returned from. *)
Inductive ConnState : Set := Active | Closed.

Section Endpoint.
Context (env : Env).

(** [await transcription_service.transcribe_chunk(audio_bytes)] *)
Definition call_transcribe_chunk (audio_bytes : list Byte.byte)
    : M (string * R) :=
  transcription_service <- get_service ;;
  emit (EvTranscribe audio_bytes) ;;
  lift (Transcription.transcribe_chunk transcription_service audio_bytes).

(** [from app.queue import add_to_transcription_queue], the second statement
    of [handle_audio_chunk].  The package [app] of the repository has no
    module [queue], so the statement raises each time it runs (a failed import
    leaves nothing in [sys.modules], and the next call tries again). *)
Definition no_queue_module : exn :=
  Exn ModuleNotFoundError "No module named 'app.queue'".

Definition import_app_queue : M unit := raise no_queue_module.

(** [handle_audio_chunk].  [import base64] succeeds; the import of
    [app.queue] comes before every other statement and outside the [try]. *)
Definition handle_audio_chunk (websocket : WebSocket) (client_id : string)
    (data : dict jval) : M unit :=
  import_app_queue ;;
  let session_id := get data "sessionId" in
  let chunk_id := get data "chunkId" in
  let audio_data_b64 := get data "audioData" in
  let timestamp := get data "timestamp" in
  audio_bytes <- lift (Base64.b64decode audio_data_b64) ;;
  send_json env websocket (ack_message chunk_id) ;;
  try_except
    (r <- call_transcribe_chunk audio_bytes ;;
     let (transcript_text, confidence) := r in
     if negb (String.eqb transcript_text "") then
       send_json env websocket
         (transcript_message session_id chunk_id timestamp
            transcript_text confidence)
     else ret tt)
    (fun e => send_json env websocket (error_message chunk_id e)).

(** The [while True] loop, run on the messages that arrive. *)
Fixpoint receive_loop (websocket : WebSocket) (client_id : string)
    (inbox : list Recv) : M unit :=
  match inbox with
  | [] => ret tt
  | RecvRaise e :: _ => raise e
  | RecvJson data :: rest =>
      let message_type := get data "type" in
      (if jval_eq_str message_type "audio_chunk" then
         handle_audio_chunk websocket client_id data
       else if jval_eq_str message_type "ping" then
         send_json env websocket pong_message
       else ret tt) ;;
      receive_loop websocket client_id rest
  end.

(** [client_id = f"client_{id(websocket)}"] *)
Definition client_id_of (websocket : WebSocket) : string :=
  "client_" ++ NilZero.string_of_uint (Nat.to_uint websocket).

Definition websocket_endpoint (websocket : WebSocket) (inbox : list Recv)
    : M ConnState :=
  let client_id := client_id_of websocket in
  try_except
    (WebSocketManager.connect env websocket client_id ;;
     receive_loop websocket client_id inbox ;;
     ret Active)
    (fun e =>
       match exn_class e with
       | WebSocketDisconnect => WebSocketManager.disconnect client_id
       | _ => WebSocketManager.disconnect client_id
       end ;;
       ret Closed).

End Endpoint.

(** [check_db_health] of [database.py]: [query] is the outcome of opening a
    session and executing [select(1)]. *)
Definition check_db_health (query : outcome unit) : bool :=
  match query with
  | Return _ => true
  | Raise _ => false
  end.

(** A value of the dictionary that [health_check] builds. *)
Inductive hval : Set :=
| HStr (s : string)
| HBool (b : bool).

(** Python truthiness, as [all] applies it. *)
Definition truthy (v : hval) : bool :=
  match v with
  | HStr s => negb (String.eqb s "")
  | HBool b => b
  end.

(** [health_check]: the content and the status code of the response. *)
Definition health_check (query : outcome unit)
    (transcription_service : Transcription.TranscriptionService)
    : dict hval * nat :=
  let checks :=
    [("status", HStr "healthy");
     ("database", HBool (check_db_health query));
     ("whisper_model",
      HBool (Transcription.is_initialized transcription_service))] in
  if forallb truthy (map snd checks) then (checks, 200%nat)
  else (checks, 503%nat).

End Main.

(** ** Reference definitions used by the statements *)

Module Reference.

Import Transcription.

(** The engine output that yields the given sub-segments and then ends. *)
Fixpoint stream_of (segments : list Segment) : SegStream :=
  match segments with
  | [] => SDone
  | s :: rest => SYield s (stream_of rest)
  end.

(** Whether iterating over the engine output runs into a fault. *)
Fixpoint stream_faults (segments : SegStream) : bool :=
  match segments with
  | SDone => false
  | SYield _ rest => stream_faults rest
  | SFault _ => true
  end.

(** The mean of the sub-segments' log-probabilities, as the specification
    words it. *)
Definition mean_logprob (segments : list Segment) : R :=
  (fold_right Rplus 0 (map avg_logprob segments)
   / INR (List.length segments))%R.

(** [clamp(x, lo, hi)] *)
Definition clamp (x lo hi : R) : R := Rmax lo (Rmin hi x).

(** The confidence as the specification defines it. *)
Definition spec_confidence (segments : list Segment) : R :=
  match segments with
  | [] => 0%R
  | _ :: _ => clamp (exp (mean_logprob segments)) 0 1
  end.

(** A loop over a list that is fixed in advance; [py_for] behaves like it
    while its body leaves the manager alone. *)
Fixpoint run_list {X Acc : Type} (body : X -> Acc -> M Acc) (xs : list X)
    (acc : Acc) : M Acc :=
  match xs with
  | [] => ret acc
  | x :: xs' => bind (body x acc) (fun acc' => run_list body xs' acc')
  end.

(** One delivery sweep over the registry entries [items], started after the
    events [history]: every entry gets one [send_json], in registry order,
    and the clients whose send raised are collected. *)
Inductive sweep (env : Env) (message : Message)
    : list Event -> list (string * WebSocket) -> list Event -> list string
      -> Prop :=
| sweep_done : forall history, sweep env message history [] [] []
| sweep_sent : forall history client_id websocket items events failed,
    send_result env history websocket = None ->
    sweep env message (history ++ [EvSend websocket message true])
      items events failed ->
    sweep env message history ((client_id, websocket) :: items)
      (EvSend websocket message true :: events) failed
| sweep_failed : forall history client_id websocket e items events failed,
    send_result env history websocket = Some e ->
    sweep env message (history ++ [EvSend websocket message false])
      items events failed ->
    sweep env message history ((client_id, websocket) :: items)
      (EvSend websocket message false :: events) (client_id :: failed).

(** A client that is in neither dictionary of the manager. *)
Definition absent (client_id : string) (m : Manager) : Prop :=
  dict_get client_id (active_connections m) = None /\
  forall session_id clients,
    In (session_id, clients) (session_clients m) -> ~ In client_id clients.

(** An event that sends a message of the given ["type"]. *)
Definition sends_type (t : string) (ev : Event) : Prop :=
  exists websocket message ok,
    ev = EvSend websocket message ok /\ Main.message_type message = Some t.

(** The sends of a session broadcast on which no write fails: one per
    member that is connected, in the order of the set. *)
Definition session_sends (m : Manager) (message : Message)
    (members : pyset) : list Event :=
  flat_map
    (fun client_id =>
       match dict_get client_id (active_connections m) with
       | Some websocket => [EvSend websocket message true]
       | None => []
       end)
    members.

Definition with_trace (w : World) (events : list Event) : World :=
  {| ws_manager := ws_manager w;
     transcription_service := transcription_service w;
     trace := trace w ++ events |}.

(** The process after [connect] has stored the socket, and after
    [disconnect] has run. *)
Definition after_connect (websocket : WebSocket) (client_id : string)
    (w : World) : World :=
  {| ws_manager :=
       {| active_connections :=
            dict_set client_id websocket (active_connections (ws_manager w));
          session_clients := session_clients (ws_manager w) |};
     transcription_service := transcription_service w;
     trace := trace w |}.

Definition after_disconnect (client_id : string) (w : World) : World :=
  {| ws_manager := WebSocketManager.disconnect_manager client_id (ws_manager w);
     transcription_service := transcription_service w;
     trace := trace w ++ [EvDisconnect client_id] |}.

(** The shape every manager has: identities and session ids are unique
    keys, and a session set holds a client at most once. *)
Definition manager_wf (m : Manager) : Prop :=
  NoDup (dict_keys (active_connections m)) /\
  NoDup (dict_keys (session_clients m)) /\
  Forall (fun entry : string * pyset => NoDup (snd entry))
    (session_clients m).

(** The text of all sub-segments, each followed by a blank. *)
Fixpoint joined_text (segments : list Transcription.Segment) : string :=
  match segments with
  | [] => ""
  | s :: rest => Transcription.text s ++ " " ++ joined_text rest
  end.

(** Whether an inbound item reaches a branch of the receive loop that does
    something: a receive error, an [audio_chunk] or a [ping]. *)
Definition handled (item : Main.Recv) : bool :=
  match item with
  | Main.RecvRaise _ => true
  | Main.RecvJson data =>
      jval_eq_str (Main.get data "type") "audio_chunk"
      || jval_eq_str (Main.get data "type") "ping"
  end.

(** An [audio_chunk] message, a [ping] message. *)
Definition is_chunk (data : dict jval) : bool :=
  jval_eq_str (Main.get data "type") "audio_chunk".

Definition is_ping (data : dict jval) : bool :=
  jval_eq_str (Main.get data "type") "ping".

(** The messages that arrive before the first [audio_chunk]. *)
Fixpoint before_first_chunk (messages : list (dict jval))
    : list (dict jval) :=
  match messages with
  | [] => []
  | data :: rest =>
      if is_chunk data then [] else data :: before_first_chunk rest
  end.

(** Text of ASCII characters only. *)
Definition ascii_text (s : string) : bool :=
  forallb (fun c => (N_of_ascii c <? 128)%N) (list_ascii_of_string s).

(** [strip] on the list of characters. *)
Definition strip_chars (l : list ascii) : list ascii :=
  rev (Transcription.lstrip_chars (rev (Transcription.lstrip_chars l))).

(** A string without whitespace at either end. *)
Definition stripped_chars (l : list ascii) : Prop :=
  match l with
  | [] => True
  | c :: cs => Transcription.isspace c = false /\
               Transcription.isspace (last cs c) = false
  end.

Definition stripped (s : string) : Prop :=
  stripped_chars (list_ascii_of_string s).

(** The exception that iterating over the engine output runs into, if
    any. *)
Fixpoint first_fault (segments : Transcription.SegStream) : option exn :=
  match segments with
  | Transcription.SDone => None
  | Transcription.SYield _ rest => first_fault rest
  | Transcription.SFault e => Some e
  end.

End Reference.

(** ** Concrete situations *)

Module Scenarios.

Import Transcription.

(** A transport on which every operation succeeds. *)
Definition env_ok : Env :=
  {| accept_result := fun _ => None; send_result := fun _ _ => None |}.

(** A transport on which writing to socket 1 fails. *)
Definition env_1_down : Env :=
  {| accept_result := fun _ => None;
     send_result := fun _ websocket =>
       if (websocket =? 1)%nat then Some (Exn TransportError "connection lost")
       else None |}.

Definition world_of (m : Manager) (s : TranscriptionService) : World :=
  {| ws_manager := m; transcription_service := s; trace := [] |}.

(** Clients A (socket 1) and B (socket 2), both in session s1. *)
Definition two_in_session : Manager :=
  {| active_connections := [("A", 1%nat); ("B", 2%nat)];
     session_clients := [("s1", ["A"; "B"])] |}.

Definition one_connection : Manager :=
  {| active_connections := [("client_1", 1%nat)]; session_clients := [] |}.

Definition note : Message := [("type", MJson (JStr "note"))].

(** An engine that finds no speech, one that faults, and one that hears
    a word. *)
Definition silent_engine : Engine := fun _ => SDone.
Definition faulty_engine : Engine :=
  fun _ => SFault (Exn EngineError "timeout").
Definition hello_engine : Engine :=
  fun _ => SYield {| text := "hello"; avg_logprob := 0 |} SDone.

Definition service_with (m : Engine) : TranscriptionService :=
  {| model := Some m; initialized := true |}.

(** [{type: "audio_chunk", sessionId: "s1", chunkId: 7, audioData: ...,
     timestamp: 1000}] *)
Definition chunk (chunk_id : Z) (audio_data : string) : dict jval :=
  [("type", JStr "audio_chunk"); ("sessionId", JStr "s1");
   ("chunkId", JInt chunk_id); ("audioData", JStr audio_data);
   ("timestamp", JInt 1000)].

(** Two zero samples, and a payload that is not base64. *)
Definition good_audio : string := "AAAAAA==".
Definition bad_audio : string := "A".

End Scenarios.

(** * Properties *)

(** ** Dictionaries and sets *)

Module DictFacts.

Lemma dict_get_del_same {V : Type} (k : string) (d : dict V) :
  dict_get k (dict_del k d) = None.
Proof.
  induction d as [|[k' v] d IH]; simpl; [reflexivity|].
  destruct (String.eqb k' k) eqn:E; simpl; [exact IH|].
  rewrite E. exact IH.
Qed.

Lemma dict_get_del_other {V : Type} (k k' : string) (d : dict V) :
  k' <> k -> dict_get k' (dict_del k d) = dict_get k' d.
Proof.
  intros Hne. induction d as [|[k0 v] d IH]; simpl; [reflexivity|].
  destruct (String.eqb k0 k) eqn:E; simpl.
  - apply String.eqb_eq in E. subst k0.
    destruct (String.eqb k k') eqn:E'; [|exact IH].
    apply String.eqb_eq in E'. congruence.
  - rewrite IH. reflexivity.
Qed.

Lemma dict_get_set_same {V : Type} (k : string) (v : V) (d : dict V) :
  dict_get k (dict_set k v d) = Some v.
Proof.
  induction d as [|[k' v'] d IH]; simpl.
  - rewrite String.eqb_refl. reflexivity.
  - destruct (String.eqb k' k) eqn:E; simpl.
    + rewrite String.eqb_refl. reflexivity.
    + rewrite E. exact IH.
Qed.

Lemma dict_get_set_other {V : Type} (k k' : string) (v : V) (d : dict V) :
  k' <> k -> dict_get k' (dict_set k v d) = dict_get k' d.
Proof.
  intros Hne. induction d as [|[k0 v0] d IH]; simpl.
  - destruct (String.eqb k k') eqn:E; [|reflexivity].
    apply String.eqb_eq in E. congruence.
  - destruct (String.eqb k0 k) eqn:E; simpl.
    + apply String.eqb_eq in E. subst k0.
      destruct (String.eqb k k') eqn:E'; [|reflexivity].
      apply String.eqb_eq in E'. congruence.
    + rewrite IH. reflexivity.
Qed.

Lemma dict_set_length_present {V : Type} (k : string) (v : V) (d : dict V) :
  dict_mem k d = true -> List.length (dict_set k v d) = List.length d.
Proof.
  unfold dict_mem.
  induction d as [|[k' v'] d IH]; simpl; [discriminate|].
  destruct (String.eqb k' k); simpl; [reflexivity|].
  intros H. rewrite IH by exact H. reflexivity.
Qed.

Lemma dict_del_absent {V : Type} (k : string) (d : dict V) :
  dict_get k d = None -> dict_del k d = d.
Proof.
  induction d as [|[k' v] d IH]; simpl; [reflexivity|].
  destruct (String.eqb k' k); simpl; [discriminate|].
  intros H. rewrite IH by exact H. reflexivity.
Qed.

Lemma dict_get_in {V : Type} (k : string) (v : V) (d : dict V) :
  dict_get k d = Some v -> In (k, v) d.
Proof.
  induction d as [|[k' v'] d IH]; simpl; [discriminate|].
  destruct (String.eqb k' k) eqn:E.
  - apply String.eqb_eq in E. intros H. inversion H. subst. now left.
  - intros H. right. now apply IH.
Qed.

Lemma dict_in_get {V : Type} (k : string) (v : V) (d : dict V) :
  NoDup (dict_keys d) -> In (k, v) d -> dict_get k d = Some v.
Proof.
  induction d as [|[k' v'] d IH]; simpl; [contradiction|].
  intros Hnd [Heq|Hin].
  - inversion Heq. subst. rewrite String.eqb_refl. reflexivity.
  - inversion Hnd as [|? ? Hnotin Hnd']. subst.
    destruct (String.eqb k' k) eqn:E.
    + apply String.eqb_eq in E. subst k'. exfalso. apply Hnotin.
      unfold dict_keys. change k with (fst (k, v)). now apply in_map.
    + now apply IH.
Qed.

Lemma set_mem_in (x : string) (s : pyset) : set_mem x s = true <-> In x s.
Proof.
  unfold set_mem. rewrite existsb_exists. split.
  - intros [y [Hin E]]. apply String.eqb_eq in E. now subst.
  - intros Hin. exists x. split; [exact Hin|apply String.eqb_refl].
Qed.

Lemma set_remove_not_in (x : string) (s : pyset) : ~ In x (set_remove x s).
Proof.
  unfold set_remove. intros H. apply filter_In in H. destruct H as [_ H].
  rewrite String.eqb_refl in H. discriminate.
Qed.

Lemma set_remove_in (x y : string) (s : pyset) :
  In y (set_remove x s) <-> In y s /\ y <> x.
Proof.
  unfold set_remove. rewrite filter_In. split; intros [H1 H2]; split; trivial.
  - intros ->. rewrite String.eqb_refl in H2. discriminate.
  - apply negb_true_iff. now apply String.eqb_neq.
Qed.

Lemma set_remove_absent (x : string) (s : pyset) :
  ~ In x s -> set_remove x s = s.
Proof.
  unfold set_remove. induction s as [|y s IH]; simpl; [reflexivity|].
  intros H. destruct (String.eqb y x) eqn:E; simpl.
  - apply String.eqb_eq in E. subst. exfalso. apply H. now left.
  - rewrite IH; [reflexivity|]. intros Hin. apply H. now right.
Qed.

Lemma set_remove_shorter (x : string) (s : pyset) :
  In x s -> (List.length (set_remove x s) < List.length s)%nat.
Proof.
  unfold set_remove. induction s as [|y s IH]; simpl; [contradiction|].
  intros H. destruct (String.eqb y x) eqn:E; simpl.
  - pose proof (filter_length_le (fun y => negb (String.eqb y x)) s). lia.
  - destruct H as [->|H]; [rewrite String.eqb_refl in E; discriminate|].
    apply IH in H. lia.
Qed.

End DictFacts.

(** ** The connection manager *)

Module ManagerSpec.

Import DictFacts Reference WebSocketManager.

Lemma disconnect_manager_absent (client_id : string) (m : Manager) :
  absent client_id (disconnect_manager client_id m).
Proof.
  split; simpl.
  - unfold dict_mem.
    destruct (dict_get client_id (active_connections m)) eqn:E;
      [apply dict_get_del_same|exact E].
  - intros session_id clients Hin.
    apply in_map_iff in Hin. destruct Hin as [[sid cs] [Heq _]].
    inversion Heq; subst; clear Heq.
    destruct (set_mem client_id cs) eqn:E.
    + apply set_remove_not_in.
    + intros Hin. apply set_mem_in in Hin. congruence.
Qed.

Lemma disconnect_manager_noop (client_id : string) (m : Manager) :
  absent client_id m -> disconnect_manager client_id m = m.
Proof.
  intros [Hreg Hses]. destruct m as [conns sessions]. simpl in *.
  unfold disconnect_manager, dict_mem. simpl. rewrite Hreg. f_equal.
  induction sessions as [|[sid cs] sessions IH]; simpl; [reflexivity|].
  rewrite IH.
  - destruct (set_mem client_id cs) eqn:E; [|reflexivity].
    apply set_mem_in in E. exfalso. apply (Hses sid cs); [now left|exact E].
  - intros s c Hin. apply (Hses s c). now right.
Qed.

Lemma disconnect_manager_get_other (client_id k : string) (m : Manager) :
  k <> client_id ->
  dict_get k (active_connections (disconnect_manager client_id m))
  = dict_get k (active_connections m).
Proof.
  intros Hne. simpl.
  destruct (dict_mem client_id (active_connections m)); [|reflexivity].
  now apply dict_get_del_other.
Qed.

Lemma disconnect_manager_get_none (client_id k : string) (m : Manager) :
  dict_get k (active_connections m) = None ->
  dict_get k (active_connections (disconnect_manager client_id m)) = None.
Proof.
  intros H. destruct (string_dec k client_id) as [->|Hne].
  - apply disconnect_manager_absent.
  - rewrite disconnect_manager_get_other; assumption.
Qed.

Lemma disconnect_manager_keeps_absent (client_id k : string) (m : Manager) :
  absent k m -> absent k (disconnect_manager client_id m).
Proof.
  intros [Hreg Hses]. split.
  - now apply disconnect_manager_get_none.
  - intros session_id clients Hin. simpl in Hin.
    apply in_map_iff in Hin. destruct Hin as [[sid cs] [Heq Hin]].
    inversion Heq; subst; clear Heq.
    specialize (Hses _ _ Hin).
    destruct (set_mem client_id cs); [|exact Hses].
    intros H. apply set_remove_in in H. now apply Hses.
Qed.

(** C2.  [disconnect] always returns; afterwards the client is in neither
    the connection dictionary nor any session set; when the client was in
    neither before, the manager is left as it was; and a second [disconnect]
    changes nothing. *)
Theorem disconnect_leaves_no_membership (client_id : string) (w : World) :
  let r := disconnect client_id w in
  fst r = Return tt /\
  absent client_id (ws_manager (snd r)) /\
  (absent client_id (ws_manager w) -> ws_manager (snd r) = ws_manager w) /\
  ws_manager (snd (disconnect client_id (snd r))) = ws_manager (snd r).
Proof.
  cbn. repeat split.
  - exact (proj1 (disconnect_manager_absent client_id (ws_manager w))).
  - exact (proj2 (disconnect_manager_absent client_id (ws_manager w))).
  - apply disconnect_manager_noop.
  - apply disconnect_manager_noop, disconnect_manager_absent.
Qed.

Lemma disconnect_leaves_no_membership_witness :
  absent "C" Scenarios.two_in_session /\
  ws_manager
    (snd (disconnect "C"
            (Scenarios.world_of Scenarios.two_in_session Transcription.init)))
  = Scenarios.two_in_session.
Proof.
  assert (H : absent "C" Scenarios.two_in_session).
  { split; [reflexivity|].
    intros session_id clients [Heq|[]]. inversion Heq; subst.
    intros [E|[E|[]]]; discriminate. }
  split; [exact H|].
  apply (proj1 (proj2 (proj2
    (disconnect_leaves_no_membership "C"
       (Scenarios.world_of Scenarios.two_in_session Transcription.init))))).
  exact H.
Defined.

(** C6, as the code has it.  When the transport accepts the socket,
    [connect] returns normally whether or not the identity is registered
    already: the new socket is stored under the identity, replacing the one
    that was there, every other entry and every session set is untouched,
    and the number of connections does not grow for a registered identity. *)
Theorem connect_replaces_handle (env : Env) (websocket : WebSocket)
    (client_id : string) (w : World) :
  accept_result env websocket = None ->
  let r := connect env websocket client_id w in
  fst r = Return tt /\
  dict_get client_id (active_connections (ws_manager (snd r)))
    = Some websocket /\
  (forall k, k <> client_id ->
     dict_get k (active_connections (ws_manager (snd r)))
     = dict_get k (active_connections (ws_manager w))) /\
  (dict_mem client_id (active_connections (ws_manager w)) = true ->
   List.length (active_connections (ws_manager (snd r)))
   = List.length (active_connections (ws_manager w))) /\
  session_clients (ws_manager (snd r)) = session_clients (ws_manager w) /\
  trace (snd r) = trace w.
Proof.
  intros Hacc. unfold connect, accept, bind. rewrite Hacc. cbn.
  repeat split.
  - apply dict_get_set_same.
  - intros k Hne. now apply dict_get_set_other.
  - apply dict_set_length_present.
Qed.

Lemma connect_replaces_handle_witness :
  accept_result Scenarios.env_ok 2%nat = None /\
  dict_get "client_1"
    (active_connections
       (ws_manager
          (snd (connect Scenarios.env_ok 2%nat "client_1"
                  (Scenarios.world_of Scenarios.one_connection
                     Transcription.init)))))
  = Some 2%nat.
Proof.
  split; [reflexivity|].
  apply (proj1 (proj2
    (connect_replaces_handle Scenarios.env_ok 2%nat "client_1"
       (Scenarios.world_of Scenarios.one_connection Transcription.init)
       eq_refl))).
Defined.

(** C6, as the specification states it, fails: registering socket 2 under
    the identity of the registered socket 1 raises nothing and replaces the
    stored handle. *)
Lemma connect_duplicate_not_rejected :
  let w := Scenarios.world_of Scenarios.one_connection Transcription.init in
  let r := connect Scenarios.env_ok 2%nat "client_1" w in
  dict_get "client_1" (active_connections (ws_manager w)) = Some 1%nat /\
  ~ (exists e, fst r = Raise e) /\
  fst r = Return tt /\
  active_connections (ws_manager (snd r)) = [("client_1", 2%nat)].
Proof.
  cbn. repeat split. intros [e He]. discriminate.
Qed.

End ManagerSpec.

(** ** Loops over live collections *)

Module LoopFacts.

Import Reference.

Lemma skipn_nth_error {X : Type} (l : list X) (pos : nat) (x : X) :
  nth_error l pos = Some x -> skipn pos l = x :: skipn (S pos) l.
Proof.
  revert pos. induction l as [|y l IH]; intros [|pos] H; simpl in *;
    try discriminate.
  - inversion H. reflexivity.
  - now apply IH.
Qed.

(** While the body leaves the manager alone, the size test of [py_for]
    never fires and the loop visits the remaining elements in order. *)
Lemma py_for_run_list {X Acc : Type} (live : Manager -> list X)
    (changed : exn) (body : X -> Acc -> M Acc) :
  (forall x acc w, ws_manager (snd (body x acc w)) = ws_manager w) ->
  forall n pos used0 acc w,
    used0 = List.length (live (ws_manager w)) ->
    (n + pos = used0)%nat ->
    py_for live changed body n pos used0 acc w
    = run_list body (skipn pos (live (ws_manager w))) acc w.
Proof.
  intros Hstable. induction n as [|n IH]; intros pos used0 acc w Hlen Hsum.
  - simpl in Hsum. subst pos. simpl.
    rewrite Hlen at 1. rewrite Nat.eqb_refl. simpl.
    assert (Hnone : nth_error (live (ws_manager w)) used0 = None)
      by (apply nth_error_None; lia).
    rewrite Hnone. rewrite skipn_all2 by lia. reflexivity.
  - simpl. rewrite Hlen at 1. rewrite Nat.eqb_refl. simpl.
    destruct (nth_error (live (ws_manager w)) pos) as [x|] eqn:Hnth.
    + rewrite (skipn_nth_error _ _ _ Hnth). simpl. unfold bind.
      pose proof (Hstable x acc w) as Hm.
      destruct (body x acc w) as [[acc'|e] w']; [|reflexivity].
      simpl in Hm. rewrite IH by (rewrite ?Hm; lia).
      rewrite Hm. reflexivity.
    + apply nth_error_None in Hnth. lia.
Qed.

Lemma py_for_each_run_list {X Acc : Type} (live : Manager -> list X)
    (changed : exn) (body : X -> Acc -> M Acc) (acc : Acc) (w : World) :
  (forall x acc w, ws_manager (snd (body x acc w)) = ws_manager w) ->
  py_for_each live changed body acc w
  = run_list body (live (ws_manager w)) acc w.
Proof.
  intros Hstable. unfold py_for_each.
  rewrite (py_for_run_list live changed body Hstable) by lia.
  reflexivity.
Qed.

Lemma with_trace_nil (w : World) : with_trace w [] = w.
Proof. destruct w. unfold with_trace. simpl. now rewrite app_nil_r. Qed.

Lemma with_trace_app (w : World) (evs1 evs2 : list Event) :
  with_trace (with_trace w evs1) evs2 = with_trace w (evs1 ++ evs2).
Proof. unfold with_trace. simpl. now rewrite app_assoc. Qed.

End LoopFacts.

(** ** [broadcast] *)

Module BroadcastSpec.

Import DictFacts Reference LoopFacts ManagerSpec WebSocketManager.

Section Sweep.
Context (env : Env) (message : Message).

Lemma broadcast_step_keeps_manager item acc w :
  ws_manager (snd (broadcast_step env message item acc w)) = ws_manager w.
Proof.
  destruct item as [client_id websocket].
  unfold broadcast_step, try_except, bind, send_json.
  destruct (send_result env (trace w) websocket); reflexivity.
Qed.

Lemma broadcast_step_result client_id websocket acc w :
  broadcast_step env message (client_id, websocket) acc w
  = match send_result env (trace w) websocket with
    | None => (Return acc, with_trace w [EvSend websocket message true])
    | Some _ =>
        (Return (acc ++ [client_id]),
         with_trace w [EvSend websocket message false])
    end.
Proof.
  unfold broadcast_step, try_except, bind, send_json.
  destruct (send_result env (trace w) websocket); reflexivity.
Qed.

Lemma run_list_sweep (items : list (string * WebSocket)) :
  forall acc w,
  exists events failed,
    sweep env message (trace w) items events failed /\
    run_list (broadcast_step env message) items acc w
    = (Return (acc ++ failed), with_trace w events).
Proof.
  induction items as [|[client_id websocket] items IH]; intros acc w.
  - exists [], []. split; [constructor|].
    simpl. rewrite app_nil_r, with_trace_nil. reflexivity.
  - change (run_list (broadcast_step env message)
              ((client_id, websocket) :: items) acc w)
      with (bind (broadcast_step env message (client_id, websocket) acc)
              (fun acc' =>
                 run_list (broadcast_step env message) items acc') w).
    unfold bind. rewrite broadcast_step_result.
    destruct (send_result env (trace w) websocket) as [e|] eqn:Hsend.
    + destruct (IH (acc ++ [client_id])
                  (with_trace w [EvSend websocket message false]))
        as [events [failed [Hsw Hrun]]].
      exists (EvSend websocket message false :: events), (client_id :: failed).
      split; [now apply sweep_failed with (e := e)|].
      rewrite Hrun, with_trace_app, <- app_assoc. reflexivity.
    + destruct (IH acc (with_trace w [EvSend websocket message true]))
        as [events [failed [Hsw Hrun]]].
      exists (EvSend websocket message true :: events), failed.
      split; [now apply sweep_sent|].
      rewrite Hrun, with_trace_app. reflexivity.
Qed.

Lemma broadcast_unfold (w : World) :
  broadcast env message w
  = match run_list (broadcast_step env message)
            (active_connections (ws_manager w)) [] w with
    | (Return disconnected_clients, w') =>
        for_list disconnected_clients disconnect w'
    | (Raise e, w') => (Raise e, w')
    end.
Proof.
  change (broadcast env message w)
    with (bind (py_for_each active_connections dict_changed
               (broadcast_step env message) [])
            (fun disconnected_clients =>
               for_list disconnected_clients disconnect) w).
  unfold bind.
  rewrite py_for_each_run_list by apply broadcast_step_keeps_manager.
  reflexivity.
Qed.

End Sweep.

Lemma for_list_disconnect (failed : list string) :
  forall w,
    for_list failed disconnect w
    = (Return tt,
       {| ws_manager :=
            fold_left (fun m c => disconnect_manager c m) failed (ws_manager w);
          transcription_service := transcription_service w;
          trace := trace w ++ map EvDisconnect failed |}).
Proof.
  induction failed as [|c failed IH]; intros w.
  - simpl. unfold ret. rewrite app_nil_r. now destruct w.
  - simpl. unfold bind at 1. cbn. rewrite IH. cbn.
    rewrite <- app_assoc. reflexivity.
Qed.

Lemma fold_disconnect_keeps_absent (failed : list string) (k : string) :
  forall m,
    absent k m ->
    absent k (fold_left (fun m c => disconnect_manager c m) failed m).
Proof.
  induction failed as [|c failed IH]; intros m H; simpl; [exact H|].
  apply IH. now apply disconnect_manager_keeps_absent.
Qed.

Lemma fold_disconnect_absent (failed : list string) (k : string) :
  forall m,
    In k failed ->
    absent k (fold_left (fun m c => disconnect_manager c m) failed m).
Proof.
  induction failed as [|c failed IH]; intros m Hin; simpl; [contradiction|].
  destruct (string_dec c k) as [->|Hne].
  - apply fold_disconnect_keeps_absent, disconnect_manager_absent.
  - destruct Hin as [Heq|Hin]; [congruence|]. now apply IH.
Qed.

Lemma fold_disconnect_get_other (failed : list string) (k : string) :
  forall m,
    ~ In k failed ->
    dict_get k
      (active_connections
         (fold_left (fun m c => disconnect_manager c m) failed m))
    = dict_get k (active_connections m).
Proof.
  induction failed as [|c failed IH]; intros m Hnin; simpl; [reflexivity|].
  rewrite IH by (intros H; apply Hnin; now right).
  apply disconnect_manager_get_other. intros ->. apply Hnin. now left.
Qed.

Lemma sweep_failed_keys env message history items events failed :
  sweep env message history items events failed ->
  incl failed (dict_keys items).
Proof.
  induction 1; simpl.
  - intros x [].
  - now apply incl_tl.
  - apply incl_cons; [now left|now apply incl_tl].
Qed.

(** With unique keys, the entries whose send failed are exactly the ones
    collected, and each entry has one send event, at its own position. *)
Lemma sweep_one_send_each env message history items events failed :
  sweep env message history items events failed ->
  NoDup (dict_keys items) ->
  Forall2
    (fun (item : string * WebSocket) ev =>
       exists ok, ev = EvSend (snd item) message ok /\
                  (ok = false <-> In (fst item) failed))
    items events.
Proof.
  induction 1 as [h|h c ws items events failed Hs Hsw IH
                   |h c ws e items events failed Hs Hsw IH];
    intros Hnd; simpl in *.
  - constructor.
  - inversion Hnd as [|? ? Hnotin Hnd']; subst. constructor.
    + exists true. split; [reflexivity|]. split; [discriminate|].
      intros Hin. exfalso. apply Hnotin.
      exact (sweep_failed_keys _ _ _ _ _ _ Hsw c Hin).
    + now apply IH.
  - inversion Hnd as [|? ? Hnotin Hnd']; subst. constructor.
    + exists false. split; [reflexivity|]. split; [now left|reflexivity].
    + specialize (IH Hnd').
      assert (Hkeys : Forall (fun item : string * WebSocket =>
                                fst item <> c) items).
      { apply Forall_forall. intros item Hin Heq. apply Hnotin.
        rewrite <- Heq. unfold dict_keys. now apply in_map. }
      clear - IH Hkeys.
      induction IH as [|item ev items events Hhead _ IH']; constructor.
      * destruct Hhead as [ok [Hev Hok]].
        inversion Hkeys; subst. exists ok. split; [reflexivity|].
        rewrite Hok. simpl. split; [now right|].
        intros [Heq|Hin]; [congruence|exact Hin].
      * inversion Hkeys; subst. now apply IH'.
Qed.

(** C8.  [broadcast] over a registry with unique identities always returns.
    It makes one [send_json] per registered connection, in registry order,
    whatever the result of the sends before it; the connections whose send
    raised are exactly the ones torn down, and every [disconnect] comes after
    the last send.  Afterwards a failed connection is in neither the
    registry nor any session set, and every other identity maps to what it
    mapped to before. *)
Theorem broadcast_isolates_failures (env : Env) (message : Message)
    (w : World) :
  NoDup (dict_keys (active_connections (ws_manager w))) ->
  let items := active_connections (ws_manager w) in
  let r := broadcast env message w in
  exists events failed,
    sweep env message (trace w) items events failed /\
    fst r = Return tt /\
    trace (snd r) = trace w ++ events ++ map EvDisconnect failed /\
    Forall2
      (fun (item : string * WebSocket) ev =>
         exists ok, ev = EvSend (snd item) message ok /\
                    (ok = false <-> In (fst item) failed))
      items events /\
    (forall c, In c failed -> absent c (ws_manager (snd r))) /\
    (forall c, ~ In c failed ->
       dict_get c (active_connections (ws_manager (snd r)))
       = dict_get c items).
Proof.
  intros Hnd items r. subst items r. rewrite broadcast_unfold.
  destruct (run_list_sweep env message (active_connections (ws_manager w))
              [] w)
    as [events [failed [Hsw Hrun]]].
  rewrite Hrun, for_list_disconnect. cbn.
  exists events, failed. repeat split.
  - exact Hsw.
  - now rewrite app_assoc.
  - exact (sweep_one_send_each env message (trace w) _ _ _ Hsw Hnd).
  - now apply fold_disconnect_absent.
  - now apply fold_disconnect_absent.
  - intros c Hc. now apply fold_disconnect_get_other.
Qed.

Lemma broadcast_isolates_failures_witness :
  NoDup (dict_keys (active_connections Scenarios.two_in_session)) /\
  exists events failed,
    trace (snd (broadcast Scenarios.env_1_down Scenarios.note
                  (Scenarios.world_of Scenarios.two_in_session
                     Transcription.init)))
    = events ++ map EvDisconnect failed.
Proof.
  assert (Hnd : NoDup (dict_keys
                         (active_connections Scenarios.two_in_session))).
  { repeat constructor; simpl; intuition discriminate. }
  split; [exact Hnd|].
  destruct (broadcast_isolates_failures Scenarios.env_1_down Scenarios.note
              (Scenarios.world_of Scenarios.two_in_session Transcription.init)
              Hnd)
    as [events [failed [_ [_ [Htrace _]]]]].
  exists events, failed. exact Htrace.
Defined.

(** The registry keeps its identities unique: the hypothesis of the
    statement above holds initially and is kept by [connect] and
    [disconnect]. *)
Lemma dict_set_keys_in {V : Type} (k k' : string) (v : V) (d : dict V) :
  In k' (dict_keys (dict_set k v d)) -> k' = k \/ In k' (dict_keys d).
Proof.
  induction d as [|[k0 v0] d IH]; simpl; intros H.
  - destruct H as [H|[]]; now left.
  - destruct (String.eqb k0 k) eqn:E; simpl in H.
    + destruct H as [H|H]; [now left|right; now right].
    + destruct H as [H|H]; [right; now left|].
      destruct (IH H); [now left|right; now right].
Qed.

Lemma dict_set_keeps_nodup {V : Type} (k : string) (v : V) (d : dict V) :
  NoDup (dict_keys d) -> NoDup (dict_keys (dict_set k v d)).
Proof.
  induction d as [|[k0 v0] d IH]; simpl; intros Hnd.
  - repeat constructor. intros [].
  - inversion Hnd as [|? ? Hnotin Hnd']; subst.
    destruct (String.eqb k0 k) eqn:E; simpl.
    + apply String.eqb_eq in E. subst k0. now constructor.
    + constructor; [|now apply IH].
      intros Hin. destruct (dict_set_keys_in _ _ _ _ Hin) as [->|H];
        [|contradiction].
      rewrite String.eqb_refl in E. discriminate.
Qed.

Lemma dict_del_keeps_nodup {V : Type} (k : string) (d : dict V) :
  NoDup (dict_keys d) -> NoDup (dict_keys (dict_del k d)).
Proof.
  induction d as [|[k0 v0] d IH]; simpl; intros Hnd; [constructor|].
  inversion Hnd as [|? ? Hnotin Hnd']; subst.
  destruct (String.eqb k0 k); simpl; [now apply IH|].
  constructor; [|now apply IH].
  intros Hin. apply Hnotin. unfold dict_keys, dict_del in *.
  apply in_map_iff in Hin. destruct Hin as [[k1 v1] [Heq Hin]].
  apply filter_In in Hin. simpl in Heq. subst k1.
  change k0 with (fst (k0, v1)). apply in_map. tauto.
Qed.

Lemma init_keys_unique : NoDup (dict_keys (active_connections init)).
Proof. constructor. Qed.

Lemma connect_keeps_keys_unique (env : Env) (websocket : WebSocket)
    (client_id : string) (w : World) :
  NoDup (dict_keys (active_connections (ws_manager w))) ->
  NoDup (dict_keys
           (active_connections
              (ws_manager (snd (connect env websocket client_id w))))).
Proof.
  intros Hnd. unfold connect, accept, bind.
  destruct (accept_result env websocket); cbn; [exact Hnd|].
  now apply dict_set_keeps_nodup.
Qed.

Lemma disconnect_keeps_keys_unique (client_id : string) (w : World) :
  NoDup (dict_keys (active_connections (ws_manager w))) ->
  NoDup (dict_keys
           (active_connections (ws_manager (snd (disconnect client_id w))))).
Proof.
  intros Hnd. cbn.
  destruct (dict_mem client_id (active_connections (ws_manager w)));
    [now apply dict_del_keeps_nodup|exact Hnd].
Qed.

End BroadcastSpec.

(** ** [broadcast_to_session] *)

Module SessionBroadcastSpec.

Import DictFacts Reference WebSocketManager.

Lemma dict_get_map_values {V W : Type} (f : V -> W) (k : string)
    (d : dict V) :
  dict_get k (map (fun entry : string * V =>
                     let (k', v) := entry in (k', f v)) d)
  = option_map f (dict_get k d).
Proof.
  induction d as [|[k' v] d IH]; simpl; [reflexivity|].
  destruct (String.eqb k' k); [reflexivity|exact IH].
Qed.

Lemma session_set_after_disconnect (session_id client_id : string)
    (m : Manager) (clients : pyset) :
  dict_get session_id (session_clients m) = Some clients ->
  session_set session_id (disconnect_manager client_id m)
  = if set_mem client_id clients then set_remove client_id clients
    else clients.
Proof.
  intros H. unfold session_set, disconnect_manager. simpl.
  rewrite (dict_get_map_values
             (fun clients : pyset =>
                if set_mem client_id clients
                then set_remove client_id clients else clients)).
  rewrite H. reflexivity.
Qed.

(** When the send to the member that the loop visits first fails,
    [send_to_client] disconnects that member, which removes it from the very
    set the loop is iterating over; the next step of the loop finds the size
    changed and raises.  No other member is sent anything. *)
Lemma broadcast_to_session_first_failure (env : Env)
    (session_id : string) (message : Message) (w : World)
    (client_id : string) (rest : pyset) (websocket : WebSocket) (e : exn) :
  dict_get session_id (session_clients (ws_manager w))
    = Some (client_id :: rest) ->
  dict_get client_id (active_connections (ws_manager w)) = Some websocket ->
  send_result env (trace w) websocket = Some e ->
  broadcast_to_session env session_id message w
  = (Raise set_changed,
     {| ws_manager := disconnect_manager client_id (ws_manager w);
        transcription_service := transcription_service w;
        trace := trace w ++ [EvSend websocket message false;
                             EvDisconnect client_id] |}).
Proof.
  intros Hset Hreg Hsend.
  unfold broadcast_to_session, bind, get_manager, dict_mem.
  rewrite Hset. unfold py_for_each.
  assert (Hlive : session_set session_id (ws_manager w) = client_id :: rest)
    by (unfold session_set; now rewrite Hset).
  rewrite Hlive. simpl List.length.
  cbn [py_for]. rewrite Hlive. simpl List.length.
  rewrite Nat.eqb_refl. cbn [negb nth_error].
  unfold bind at 1.
  assert (Hstep : send_to_client env client_id message w
                  = (Return tt,
                     {| ws_manager :=
                          disconnect_manager client_id (ws_manager w);
                        transcription_service := transcription_service w;
                        trace := trace w ++ [EvSend websocket message false;
                                             EvDisconnect client_id] |})).
  { unfold send_to_client, bind, get_manager. rewrite Hreg.
    unfold try_except, send_json. rewrite Hsend. cbn.
    rewrite <- app_assoc. reflexivity. }
  rewrite Hstep.
  assert (Hshort : (List.length
                      (session_set session_id
                         (disconnect_manager client_id (ws_manager w)))
                    =? S (List.length rest))%nat = false).
  { rewrite (session_set_after_disconnect _ _ _ _ Hset).
    assert (Hmem : set_mem client_id (client_id :: rest) = true)
      by (apply set_mem_in; now left).
    rewrite Hmem. apply Nat.eqb_neq.
    pose proof (set_remove_shorter client_id (client_id :: rest)
                  (or_introl eq_refl)) as Hlt.
    change (List.length (client_id :: rest)) with (S (List.length rest))
      in Hlt.
    lia. }
  destruct (List.length rest) as [|n]; cbn [py_for ws_manager];
    rewrite Hshort; reflexivity.
Qed.

(** While no write fails, the loop of [broadcast_to_session] never
    changes the set, and every connected member of the session gets the
    message once. *)
Lemma send_to_client_delivers (env : Env) (client_id : string)
    (message : Message) (w : World) :
  (forall history websocket, send_result env history websocket = None) ->
  send_to_client env client_id message w
  = (Return tt,
     with_trace w (session_sends (ws_manager w) message [client_id])).
Proof.
  intros Hok. unfold send_to_client, bind, get_manager, session_sends.
  cbn [flat_map].
  destruct (dict_get client_id (active_connections (ws_manager w)))
    as [websocket|].
  - unfold try_except, send_json. rewrite Hok. reflexivity.
  - unfold ret. cbn [app]. now rewrite LoopFacts.with_trace_nil.
Qed.

Lemma broadcast_to_session_delivers (env : Env) (session_id : string)
    (message : Message) (w : World) :
  (forall history websocket, send_result env history websocket = None) ->
  broadcast_to_session env session_id message w
  = (Return tt,
     with_trace w
       (session_sends (ws_manager w) message
          (session_set session_id (ws_manager w)))).
Proof.
  intros Hok.
  assert (Hrun : forall members w0,
             run_list (fun (client_id : string) (_ : unit) =>
                         send_to_client env client_id message)
               members tt w0
             = (Return tt,
                with_trace w0 (session_sends (ws_manager w0) message members))).
  { induction members as [|c members IH]; intros w0.
    - cbn. unfold ret. now rewrite LoopFacts.with_trace_nil.
    - cbn [run_list]. unfold bind.
      rewrite (send_to_client_delivers env c message w0 Hok).
      rewrite IH. rewrite LoopFacts.with_trace_app.
      cbn [ws_manager with_trace]. unfold session_sends. cbn [flat_map].
      now rewrite app_nil_r. }
  unfold broadcast_to_session, bind, get_manager.
  destruct (dict_mem session_id (session_clients (ws_manager w))) eqn:Hmem.
  - rewrite LoopFacts.py_for_each_run_list.
    + apply Hrun.
    + intros x acc w0.
      now rewrite (send_to_client_delivers env x message w0 Hok).
  - unfold session_set, dict_mem in *.
    destruct (dict_get session_id (session_clients (ws_manager w)));
      [discriminate|].
    unfold ret. cbn. now rewrite LoopFacts.with_trace_nil.
Qed.

(** C1, at a failing input.  Clients A and B are connected and both in
    session s1, the set iterates A first, and writing to A's socket fails.
    The broadcast raises [RuntimeError] after the attempt on A, and B, a
    member of the session when the call began, receives nothing. *)
Theorem broadcast_to_session_failed_send_aborts :
  let w := Scenarios.world_of Scenarios.two_in_session Transcription.init in
  let r := broadcast_to_session Scenarios.env_1_down "s1" Scenarios.note w in
  session_set "s1" (ws_manager w) = ["A"; "B"] /\
  dict_get "B" (active_connections (ws_manager w)) = Some 2%nat /\
  send_result Scenarios.env_1_down (trace w) 2%nat = None /\
  fst r = Raise set_changed /\
  trace (snd r) = [EvSend 1%nat Scenarios.note false; EvDisconnect "A"] /\
  (forall message ok, ~ In (EvSend 2%nat message ok) (trace (snd r))).
Proof.
  cbn. repeat split.
  intros message ok [H|[H|[]]]; discriminate.
Qed.

End SessionBroadcastSpec.

(** ** The transcription service *)

Module TranscriptionSpec.

Import Reference Transcription.

Local Open Scope R_scope.

(** *** Bounds on [exp (-5)], by twelve doublings from [exp (-5/4096)] *)

Lemma exp_double_bounds (x lo hi lo' hi' : R) :
  0 <= lo -> lo <= exp x <= hi -> lo' <= lo * lo -> hi * hi <= hi' ->
  lo' <= exp (2 * x) <= hi'.
Proof.
  intros Hlo [H1 H2] Hl Hh.
  replace (2 * x) with (x + x) by ring. rewrite exp_plus.
  assert (Hpos : 0 <= exp x) by (left; apply exp_pos).
  split.
  - apply Rle_trans with (lo * lo); [exact Hl|].
    apply Rmult_le_compat; assumption.
  - apply Rle_trans with (hi * hi); [|exact Hh].
    apply Rmult_le_compat; assumption.
Qed.

Ltac double_from B x :=
  match goal with
  | |- _ <= exp ?y <= _ =>
      replace y with (2 * x) by lra;
      apply (fun H0 Hl Hh => exp_double_bounds x _ _ _ _ H0 B Hl Hh); lra
  end.

Lemma exp_minus_5_bounds : 0.0067 < exp (-5) < 0.0068.
Proof.
  assert (B0 : 0.998779296875 <= exp (-5 / 4096) <= 0.998780785175).
  { split.
    - pose proof (exp_ineq1_le (-5 / 4096)). lra.
    - pose proof (exp_ineq1_le (5 / 4096)) as Hup.
      pose proof (exp_pos (-5 / 4096)) as Hpos.
      assert (Hone : exp (-5 / 4096) * exp (5 / 4096) = 1).
      { rewrite <- exp_plus. replace (-5 / 4096 + 5 / 4096) with 0 by lra.
        apply exp_0. }
      nra. }
  assert (B1 : 0.997560083866 <= exp (-5 / 2048) <= 0.997563056835)
    by (double_from B0 (-5 / 4096)).
  assert (B2 : 0.995126120922 <= exp (-5 / 1024) <= 0.995132052362)
    by (double_from B1 (-5 / 2048)).
  assert (B3 : 0.990275996541 <= exp (-5 / 512) <= 0.990287801639)
    by (double_from B2 (-5 / 1024)).
  assert (B4 : 0.980646549325 <= exp (-5 / 256) <= 0.980669930076)
    by (double_from B3 (-5 / 512)).
  assert (B5 : 0.961667654703 <= exp (-5 / 128) <= 0.961713511756)
    by (double_from B4 (-5 / 256)).
  assert (B6 : 0.924804678101 <= exp (-5 / 64) <= 0.924892878695)
    by (double_from B5 (-5 / 128)).
  assert (B7 : 0.855263692637 <= exp (-5 / 32) <= 0.855426837061)
    by (double_from B6 (-5 / 64)).
  assert (B8 : 0.731475983943 <= exp (-5 / 16) <= 0.731755073565)
    by (double_from B7 (-5 / 32)).
  assert (B9 : 0.535057115085 <= exp (-5 / 8) <= 0.535465487689)
    by (double_from B8 (-5 / 16)).
  assert (B10 : 0.286286116403 <= exp (-5 / 4) <= 0.286723288507)
    by (double_from B9 (-5 / 8)).
  assert (B11 : 0.081959740445 <= exp (-5 / 2) <= 0.082210244173)
    by (double_from B10 (-5 / 4)).
  assert (B12 : 0.006717399053 <= exp (-5 / 1) <= 0.006758524247)
    by (double_from B11 (-5 / 2)).
  replace (-5) with (-5 / 1) by lra. lra.
Qed.

(** *** The loop over the sub-segments *)

Lemma collect_stream_of (segments : list Segment) :
  forall transcript_text total_confidence segment_count,
  exists joined,
    collect (stream_of segments) transcript_text total_confidence
      segment_count
    = Return (joined,
              total_confidence + fold_right Rplus 0 (map avg_logprob segments),
              (segment_count + List.length segments)%nat).
Proof.
  induction segments as [|s segments IH]; intros t total count; simpl.
  - exists t. rewrite Rplus_0_r, Nat.add_0_r. reflexivity.
  - destruct (IH (t ++ (text s ++ " "))%string (total + avg_logprob s)
                (S count)) as [joined H].
    exists joined. rewrite H.
    replace (total + avg_logprob s
             + fold_right Rplus 0 (map avg_logprob segments))
      with (total + (avg_logprob s
                     + fold_right Rplus 0 (map avg_logprob segments)))
      by ring.
    replace (S count + List.length segments)%nat
      with (count + S (List.length segments))%nat by lia.
    reflexivity.
Qed.

Lemma collect_faults (segments : SegStream) :
  forall transcript_text total_confidence segment_count,
    stream_faults segments = true ->
    exists e,
      collect segments transcript_text total_confidence segment_count
      = Raise e.
Proof.
  induction segments as [|s rest IH|e]; intros t total count H; simpl in *.
  - discriminate.
  - now apply IH.
  - now exists e.
Qed.

Lemma clamp_range (x : R) : 0 <= clamp x 0 1 <= 1.
Proof.
  unfold clamp. split.
  - apply Rmax_l.
  - apply Rmax_lub; [lra|apply Rmin_l].
Qed.

Lemma clamp_inside (x : R) : 0 <= x <= 1 -> clamp x 0 1 = x.
Proof.
  intros [H0 H1]. unfold clamp.
  rewrite Rmin_right by exact H1. now apply Rmax_right.
Qed.

Lemma transcribe_body_range self audio_bytes transcript_text confidence :
  transcribe_body self audio_bytes = Return (transcript_text, confidence) ->
  0 <= confidence <= 1.
Proof.
  unfold transcribe_body.
  destruct (_bytes_to_audio_array audio_bytes) as [audio_array|];
    [|discriminate].
  destruct (model self) as [m|]; [|discriminate].
  destruct (collect (m audio_array) "" 0 0%nat) as [[[t total] count]|];
    [|discriminate].
  intros H. inversion H; subst; clear H.
  destruct (0 <? count)%nat; [apply clamp_range|lra].
Qed.

Lemma transcribe_chunk_initialized self audio_bytes :
  initialized self = true ->
  transcribe_chunk self audio_bytes
  = match transcribe_body self audio_bytes with
    | Return r => Return r
    | Raise _ => Return (""%string, 0)
    end.
Proof. intros H. unfold transcribe_chunk. now rewrite H. Qed.

(** *** Decoding the sample buffer *)

Lemma list_pair_ind {A : Type} (P : list A -> Prop) :
  P [] -> (forall a, P [a]) -> (forall a b l, P l -> P (a :: b :: l)) ->
  forall l, P l.
Proof.
  intros H0 H1 H2. fix rec 1.
  intros [|a [|b l]]; [exact H0|apply H1|apply H2, rec].
Qed.

Lemma frombuffer_int16_outcome (bs : list Byte.byte) :
  if Nat.odd (List.length bs)
  then exists e, frombuffer_int16 bs = Raise e
  else exists zs, frombuffer_int16 bs = Return zs.
Proof.
  induction bs as [|a|a b l IH] using list_pair_ind.
  - simpl. now exists [].
  - simpl. eexists. reflexivity.
  - change (Nat.odd (List.length (a :: b :: l)))
      with (Nat.odd (List.length l)).
    simpl frombuffer_int16.
    destruct (Nat.odd (List.length l)).
    + destruct IH as [e He]. rewrite He. now exists e.
    + destruct IH as [zs Hzs]. rewrite Hzs. eexists. reflexivity.
Qed.

Lemma bytes_to_audio_array_odd (audio_bytes : list Byte.byte) :
  Nat.odd (List.length audio_bytes) = true ->
  exists e, _bytes_to_audio_array audio_bytes = Raise e.
Proof.
  intros H. pose proof (frombuffer_int16_outcome audio_bytes) as Ho.
  rewrite H in Ho. destruct Ho as [e He].
  exists e. unfold _bytes_to_audio_array. now rewrite He.
Qed.

Lemma bytes_to_audio_array_even (audio_bytes : list Byte.byte) :
  Nat.odd (List.length audio_bytes) = false ->
  exists audio_array, _bytes_to_audio_array audio_bytes = Return audio_array.
Proof.
  intros H. pose proof (frombuffer_int16_outcome audio_bytes) as Ho.
  rewrite H in Ho. destruct Ho as [zs Hzs].
  unfold _bytes_to_audio_array. rewrite Hzs. eexists. reflexivity.
Qed.

(** *** The confidence *)

Lemma transcribe_chunk_of_segments self audio_bytes audio_array m segments :
  initialized self = true ->
  model self = Some m ->
  _bytes_to_audio_array audio_bytes = Return audio_array ->
  m audio_array = stream_of segments ->
  exists joined,
    transcribe_chunk self audio_bytes
    = Return (strip joined, spec_confidence segments).
Proof.
  intros Hinit Hmodel Harr Hseg.
  rewrite transcribe_chunk_initialized by exact Hinit.
  unfold transcribe_body. rewrite Harr, Hmodel, Hseg.
  destruct (collect_stream_of segments ""%string 0 0%nat) as [joined H].
  rewrite H. exists joined. do 2 f_equal.
  destruct segments as [|s segments]; [reflexivity|].
  change (0 <? 0 + List.length (s :: segments))%nat with true. cbv iota.
  unfold spec_confidence, clamp, mean_logprob.
  rewrite Rplus_0_l. reflexivity.
Qed.

(** C5.  When the engine yields the sub-segments [segments], the confidence
    that [transcribe_chunk] returns is the one the specification defines:
    [clamp (exp (mean of avg_logprob)) 0 1] for at least one sub-segment and
    0 for none.  A mean of 0 gives 1, a mean of -5 gives a value between
    0.0067 and 0.0068, and whatever [transcribe_chunk] returns, its
    confidence is in [[0, 1]]. *)
Theorem confidence_is_clamped_exp_of_mean :
  (forall self audio_bytes audio_array m segments,
     initialized self = true ->
     model self = Some m ->
     _bytes_to_audio_array audio_bytes = Return audio_array ->
     m audio_array = stream_of segments ->
     exists transcript_text,
       transcribe_chunk self audio_bytes
       = Return (transcript_text, spec_confidence segments)) /\
  (forall segments,
     segments <> [] ->
     spec_confidence segments = clamp (exp (mean_logprob segments)) 0 1) /\
  (forall segments,
     segments <> [] -> mean_logprob segments = 0 ->
     spec_confidence segments = 1) /\
  (forall segments,
     segments <> [] -> mean_logprob segments = -5 ->
     0.0067 < spec_confidence segments < 0.0068) /\
  spec_confidence [] = 0 /\
  (forall self audio_bytes transcript_text confidence,
     transcribe_chunk self audio_bytes = Return (transcript_text, confidence) ->
     0 <= confidence <= 1).
Proof.
  repeat apply conj.
  - intros self audio_bytes audio_array m segments Hinit Hmodel Harr Hseg.
    destruct (transcribe_chunk_of_segments _ _ _ _ _ Hinit Hmodel Harr Hseg)
      as [joined H].
    now exists (strip joined).
  - intros [|s segments] Hne; [congruence|reflexivity].
  - intros [|s segments] Hne Hmean; [congruence|].
    unfold spec_confidence. rewrite Hmean, exp_0.
    apply clamp_inside. lra.
  - intros [|s segments] Hne Hmean; [congruence|].
    unfold spec_confidence. rewrite Hmean.
    pose proof exp_minus_5_bounds as Hb.
    rewrite clamp_inside by lra. exact Hb.
  - reflexivity.
  - intros self audio_bytes t c. unfold transcribe_chunk.
    destruct (initialized self); simpl; [|discriminate].
    destruct (transcribe_body self audio_bytes) as [[t' c']|e] eqn:Hbody.
    + intros H. inversion H; subst.
      exact (transcribe_body_range _ _ _ _ Hbody).
    + intros H. inversion H; subst. lra.
Qed.

Lemma confidence_is_clamped_exp_of_mean_witness :
  exists transcript_text,
    transcribe_chunk (Scenarios.service_with Scenarios.hello_engine) []
    = Return (transcript_text,
              spec_confidence [{| text := "hello"; avg_logprob := 0 |}]).
Proof.
  apply (proj1 confidence_is_clamped_exp_of_mean
           (Scenarios.service_with Scenarios.hello_engine) [] []
           Scenarios.hello_engine
           [{| text := "hello"; avg_logprob := 0 |}]
           eq_refl eq_refl eq_refl eq_refl).
Defined.

(** *** Totality *)

(** C10.  On an initialized service [transcribe_chunk] returns for every
    buffer.  A buffer of odd length, a missing model, and an engine whose
    output faults anywhere all give [("", 0.0)], which is also what an
    engine that yields no sub-segment gives.  The only exception that
    [transcribe_chunk] raises is the [RuntimeError] of a service that is not
    initialized. *)
Theorem transcribe_chunk_raises_only_uninitialized
    (self : TranscriptionService) (audio_bytes : list Byte.byte) :
  (initialized self = true ->
     (exists transcript_text confidence,
        transcribe_chunk self audio_bytes
        = Return (transcript_text, confidence)) /\
     (Nat.odd (List.length audio_bytes) = true ->
      transcribe_chunk self audio_bytes = Return (""%string, 0)) /\
     (model self = None ->
      transcribe_chunk self audio_bytes = Return (""%string, 0)) /\
     (forall m audio_array,
        model self = Some m ->
        _bytes_to_audio_array audio_bytes = Return audio_array ->
        stream_faults (m audio_array) = true ->
        transcribe_chunk self audio_bytes = Return (""%string, 0)) /\
     (forall m audio_array,
        model self = Some m ->
        _bytes_to_audio_array audio_bytes = Return audio_array ->
        m audio_array = SDone ->
        transcribe_chunk self audio_bytes = Return (""%string, 0))) /\
  (initialized self = false ->
   transcribe_chunk self audio_bytes = Raise not_initialized) /\
  (forall e,
     transcribe_chunk self audio_bytes = Raise e ->
     initialized self = false /\ e = not_initialized).
Proof.
  repeat apply conj.
  - intros Hinit. rewrite transcribe_chunk_initialized by exact Hinit.
    repeat apply conj.
    + destruct (transcribe_body self audio_bytes) as [[t c]|e].
      * now exists t, c.
      * now exists ""%string, 0.
    + intros Hodd. unfold transcribe_body.
      destruct (bytes_to_audio_array_odd _ Hodd) as [e He]. now rewrite He.
    + intros Hmodel. unfold transcribe_body. rewrite Hmodel.
      now destruct (_bytes_to_audio_array audio_bytes).
    + intros m audio_array Hmodel Harr Hfault. unfold transcribe_body.
      rewrite Harr, Hmodel.
      destruct (collect_faults _ ""%string 0 0%nat Hfault) as [e He].
      now rewrite He.
    + intros m audio_array Hmodel Harr Hdone. unfold transcribe_body.
      rewrite Harr, Hmodel, Hdone. reflexivity.
  - intros Hinit. unfold transcribe_chunk. now rewrite Hinit.
  - intros e. unfold transcribe_chunk.
    destruct (initialized self); simpl.
    + destruct (transcribe_body self audio_bytes); discriminate.
    + intros H. inversion H. now split.
Qed.

Lemma transcribe_chunk_raises_only_uninitialized_witness :
  initialized (Scenarios.service_with Scenarios.faulty_engine) = true /\
  Nat.odd (List.length [Byte.x01]) = true /\
  transcribe_chunk (Scenarios.service_with Scenarios.faulty_engine)
    [Byte.x01]
  = Return (""%string, 0) /\
  transcribe_chunk Transcription.init [Byte.x01] = Raise not_initialized.
Proof.
  split; [reflexivity|]. split; [reflexivity|]. split.
  - exact (proj1 (proj2 (proj1
             (transcribe_chunk_raises_only_uninitialized
                (Scenarios.service_with Scenarios.faulty_engine) [Byte.x01])
             eq_refl)) eq_refl).
  - exact (proj1 (proj2
             (transcribe_chunk_raises_only_uninitialized
                Transcription.init [Byte.x01])) eq_refl).
Defined.

End TranscriptionSpec.

(** ** The WebSocket endpoint *)

Module EndpointSpec.

Import Reference Main LoopFacts.

(** [handle_audio_chunk] does not get past its import: whatever the message,
    the transport and the service, it raises [ModuleNotFoundError] and has
    neither decoded, written nor transcribed anything. *)
Lemma handle_raises_at_import env websocket client_id data w :
  handle_audio_chunk env websocket client_id data w
  = (Raise no_queue_module, w).
Proof.
  unfold handle_audio_chunk, import_app_queue, bind, raise. reflexivity.
Qed.


(** One turn of the receive loop on an [audio_chunk] message. *)
Lemma receive_loop_audio_chunk env websocket client_id data rest w :
  jval_eq_str (get data "type") "audio_chunk" = true ->
  receive_loop env websocket client_id (RecvJson data :: rest) w
  = match handle_audio_chunk env websocket client_id data w with
    | (Return _, w') => receive_loop env websocket client_id rest w'
    | (Raise e, w') => (Raise e, w')
    end.
Proof.
  intros Htype. cbn [receive_loop]. rewrite Htype. reflexivity.
Qed.

(** The endpoint: it stays in the receive loop until an exception leaves
    the loop, and then disconnects the client. *)
Lemma endpoint_unfold env websocket inbox w :
  accept_result env websocket = None ->
  websocket_endpoint env websocket inbox w
  = match receive_loop env websocket (client_id_of websocket) inbox
            (after_connect websocket (client_id_of websocket) w) with
    | (Return _, w') => (Return Active, w')
    | (Raise _, w') =>
        (Return Closed, after_disconnect (client_id_of websocket) w')
    end.
Proof.
  intros Hacc.
  unfold websocket_endpoint, try_except, WebSocketManager.connect, accept.
  rewrite Hacc.
  unfold bind at 1. unfold bind at 1. unfold ret at 1.
  unfold modify_manager. unfold bind at 1.
  fold (after_connect websocket (client_id_of websocket) w).
  destruct (receive_loop env websocket (client_id_of websocket) inbox
              (after_connect websocket (client_id_of websocket) w))
    as [[[]|e] w'].
  - reflexivity.
  - destruct (exn_class e); reflexivity.
Qed.

(** An [audio_chunk] message ends the connection: the exception of the
    import leaves the receive loop, and the endpoint disconnects the client
    without having written anything for the message or read what follows
    it. *)
Lemma audio_chunk_closes env websocket data rest w :
  accept_result env websocket = None ->
  jval_eq_str (get data "type") "audio_chunk" = true ->
  websocket_endpoint env websocket (RecvJson data :: rest) w
  = (Return Closed,
     after_disconnect (client_id_of websocket)
       (after_connect websocket (client_id_of websocket) w)).
Proof.
  intros Hacc Htype.
  rewrite (endpoint_unfold env websocket _ w Hacc).
  rewrite receive_loop_audio_chunk by exact Htype.
  now rewrite handle_raises_at_import.
Qed.

Lemma disconnect_event_sends_nothing (t client_id : string) :
  ~ Exists (sends_type t) [EvDisconnect client_id].
Proof.
  intros H. inversion H as [ev l Hev|ev l Hl]; subst.
  - destruct Hev as [ws [message [ok [Heq _]]]]. discriminate.
  - inversion Hl.
Qed.

(** C7, at a failing input.  The service is initialized and its engine finds
    no speech, so the transcription of the two zero samples of chunk 1
    returns empty text.  The client sends that chunk on a fresh connection.
    No transcript is written, but no acknowledgement either: the handler
    raises at its import, nothing at all is written, and the endpoint
    returns with the client removed from the registry. *)
Theorem silent_chunk_gets_no_ack :
  let w := Scenarios.world_of WebSocketManager.init
             (Scenarios.service_with Scenarios.silent_engine) in
  let data := Scenarios.chunk 1 Scenarios.good_audio in
  let r := websocket_endpoint Scenarios.env_ok 1%nat [RecvJson data] w in
  Base64.b64decode (get data "audioData")
  = Return [Byte.x00; Byte.x00; Byte.x00; Byte.x00] /\
  Transcription.transcribe_chunk (transcription_service w)
    [Byte.x00; Byte.x00; Byte.x00; Byte.x00]
  = Return ("", 0%R) /\
  handle_audio_chunk Scenarios.env_ok 1%nat "client_1" data
    (after_connect 1%nat "client_1" w)
  = (Raise no_queue_module, after_connect 1%nat "client_1" w) /\
  fst r = Return Closed /\
  trace (snd r) = [EvDisconnect "client_1"] /\
  ~ Exists (sends_type "ack") (trace (snd r)) /\
  active_connections (ws_manager (snd r)) = [].
Proof.
  intros w data r.
  split; [reflexivity|]. split; [reflexivity|].
  split; [apply handle_raises_at_import|].
  subst r.
  rewrite (audio_chunk_closes Scenarios.env_ok 1%nat data [] w eq_refl
             eq_refl).
  cbn [fst snd trace after_disconnect after_connect w Scenarios.world_of
       app].
  split; [reflexivity|]. split; [reflexivity|].
  split; [apply disconnect_event_sends_nothing|reflexivity].
Qed.




(** C4, at a failing input.  The client sends chunk 7 with a payload that is
    not base64 and then a well-formed chunk 8.  The server sends nothing, not
    even for chunk 8, and the endpoint returns with the client removed from
    the registry. *)
Theorem malformed_payload_closes_connection :
  let w := Scenarios.world_of WebSocketManager.init
             (Scenarios.service_with Scenarios.silent_engine) in
  let r := websocket_endpoint Scenarios.env_ok 1%nat
             [RecvJson (Scenarios.chunk 7 Scenarios.bad_audio);
              RecvJson (Scenarios.chunk 8 Scenarios.good_audio)] w in
  Base64.b64decode (JStr Scenarios.bad_audio) = Raise Base64.invalid_length /\
  fst r = Return Closed /\
  active_connections (ws_manager (snd r)) = [] /\
  trace (snd r) = [EvDisconnect "client_1"].
Proof.
  intros w r. split; [reflexivity|].
  subst r.
  rewrite (audio_chunk_closes Scenarios.env_ok 1%nat
             (Scenarios.chunk 7 Scenarios.bad_audio)
             [RecvJson (Scenarios.chunk 8 Scenarios.good_audio)] w eq_refl
             eq_refl).
  repeat split.
Qed.

(** C9, at a failing input.  The service is initialized and its engine hears
    a word; the client sends the well-formed chunk 7 and then a ping.  No
    acknowledgement is written for the chunk: the handler raises at its
    import, before it decodes the payload, and the endpoint returns with the
    client removed from the registry and the ping unanswered. *)
Theorem well_formed_chunk_gets_no_ack :
  let w := Scenarios.world_of WebSocketManager.init
             (Scenarios.service_with Scenarios.hello_engine) in
  let data := Scenarios.chunk 7 Scenarios.good_audio in
  let r := websocket_endpoint Scenarios.env_ok 1%nat
             [RecvJson data; RecvJson [("type", JStr "ping")]] w in
  jval_eq_str (get data "type") "audio_chunk" = true /\
  Base64.b64decode (get data "audioData")
  = Return [Byte.x00; Byte.x00; Byte.x00; Byte.x00] /\
  fst (handle_audio_chunk Scenarios.env_ok 1%nat "client_1" data
         (after_connect 1%nat "client_1" w))
  = Raise no_queue_module /\
  fst r = Return Closed /\
  trace (snd r) = [EvDisconnect "client_1"] /\
  ~ Exists (sends_type "ack") (trace (snd r)) /\
  ~ Exists (sends_type "pong") (trace (snd r)).
Proof.
  intros w data r.
  split; [reflexivity|]. split; [reflexivity|].
  split; [now rewrite handle_raises_at_import|].
  subst r.
  rewrite (audio_chunk_closes Scenarios.env_ok 1%nat data
             [RecvJson [("type", JStr "ping")]] w eq_refl eq_refl).
  cbn [fst snd trace after_disconnect after_connect w Scenarios.world_of
       app].
  split; [reflexivity|]. split; [reflexivity|].
  split; apply disconnect_event_sends_nothing.
Qed.

End EndpointSpec.

(** * Further properties of the code *)

(** ** Sessions and the registry *)

Module ManagerExtra.

Import DictFacts Reference WebSocketManager.

Lemma dict_set_same_value {V : Type} (k : string) (v : V) (d : dict V) :
  dict_get k d = Some v -> dict_set k v d = d.
Proof.
  induction d as [|[k' v'] d IH]; simpl; [discriminate|].
  destruct (String.eqb k' k) eqn:E.
  - apply String.eqb_eq in E. intros H. inversion H. now subst.
  - intros H. now rewrite IH.
Qed.

Lemma dict_keys_set {V : Type} (k : string) (v : V) (d : dict V) :
  dict_keys (dict_set k v d)
  = if dict_mem k d then dict_keys d else dict_keys d ++ [k].
Proof.
  unfold dict_mem. induction d as [|[k' v'] d IH]; simpl; [reflexivity|].
  destruct (String.eqb k' k) eqn:E; simpl.
  - apply String.eqb_eq in E. now subst.
  - rewrite IH. now destruct (dict_get k d).
Qed.

Lemma dict_del_set_fresh {V : Type} (k : string) (v : V) (d : dict V) :
  dict_get k d = None -> dict_del k (dict_set k v d) = d.
Proof.
  induction d as [|[k' v'] d IH]; simpl.
  - intros _. now rewrite String.eqb_refl.
  - destruct (String.eqb k' k) eqn:E; [discriminate|].
    intros H. simpl. rewrite E. simpl. now rewrite IH.
Qed.

Lemma dict_del_length_present {V : Type} (k : string) (d : dict V) :
  NoDup (dict_keys d) -> dict_mem k d = true ->
  S (List.length (dict_del k d)) = List.length d.
Proof.
  unfold dict_mem.
  induction d as [|[k' v'] d IH]; simpl; [discriminate|].
  intros Hnd Hmem. inversion Hnd as [|? ? Hnotin Hnd']; subst.
  destruct (String.eqb k' k) eqn:E; simpl.
  - apply String.eqb_eq in E. subst k'.
    rewrite dict_del_absent; [reflexivity|].
    destruct (dict_get k d) as [v|] eqn:G; [|reflexivity].
    exfalso. apply Hnotin. apply dict_get_in in G.
    unfold dict_keys. change k with (fst (k, v)). now apply in_map.
  - now rewrite IH.
Qed.

Lemma set_add_in (x y : string) (s : pyset) :
  In y (set_add x s) <-> y = x \/ In y s.
Proof.
  unfold set_add. destruct (set_mem x s) eqn:E.
  - apply set_mem_in in E. split; [now right|]. intros [->|H]; assumption.
  - rewrite in_app_iff. simpl. intuition.
Qed.

Lemma set_add_nodup (x : string) (s : pyset) :
  NoDup s -> NoDup (set_add x s).
Proof.
  intros Hnd. unfold set_add. destruct (set_mem x s) eqn:E; [exact Hnd|].
  apply NoDup_app; [exact Hnd|repeat constructor; intros []|].
  intros y Hy [<-|[]]. apply set_mem_in in Hy. congruence.
Qed.

Lemma session_set_register (session_id client_id : string) (m : Manager) :
  session_set session_id (register_manager session_id client_id m)
  = set_add client_id (session_set session_id m).
Proof.
  unfold session_set, register_manager, dict_mem. simpl.
  destruct (dict_get session_id (session_clients m)) as [clients|] eqn:G.
  - rewrite G. now rewrite dict_get_set_same.
  - rewrite dict_get_set_same. now rewrite dict_get_set_same.
Qed.

Lemma register_other_session (session_id client_id other : string)
    (m : Manager) :
  other <> session_id ->
  dict_get other (session_clients (register_manager session_id client_id m))
  = dict_get other (session_clients m).
Proof.
  intros Hne. unfold register_manager, dict_mem. simpl.
  destruct (dict_get session_id (session_clients m)) as [clients|] eqn:G.
  - rewrite G. now apply dict_get_set_other.
  - rewrite dict_get_set_same.
    rewrite !dict_get_set_other by exact Hne. reflexivity.
Qed.

(** X1.  [register_session_client] always returns and makes the client a
    member of the session, creating the session when needed: the members
    afterwards are the client and the members before.  Joining twice is the
    same as joining once, the count grows by one exactly for a new member,
    other sessions and the connection registry are untouched; in particular
    the client need not be connected. *)
Theorem register_session_client_joins (session_id client_id : string)
    (w : World) :
  let r := register_session_client session_id client_id w in
  let m := ws_manager w in
  let m' := ws_manager (snd r) in
  fst r = Return tt /\
  (forall x, In x (session_set session_id m')
             <-> x = client_id \/ In x (session_set session_id m)) /\
  List.length (session_set session_id m')
  = (if set_mem client_id (session_set session_id m)
     then List.length (session_set session_id m)
     else S (List.length (session_set session_id m))) /\
  ws_manager (snd (register_session_client session_id client_id (snd r)))
  = m' /\
  (forall other, other <> session_id ->
     dict_get other (session_clients m')
     = dict_get other (session_clients m)) /\
  active_connections m' = active_connections m /\
  trace (snd r) = trace w.
Proof.
  cbn. repeat apply conj; try reflexivity.
  - intros x. rewrite session_set_register. apply set_add_in.
  - rewrite session_set_register. unfold set_add.
    destruct (set_mem client_id (session_set session_id (ws_manager w)));
      [reflexivity|].
    rewrite length_app. simpl. lia.
  - set (m1 := register_manager session_id client_id (ws_manager w)).
    assert (Hin : set_mem client_id (session_set session_id m1) = true).
    { apply set_mem_in. unfold m1. rewrite session_set_register.
      apply set_add_in. now left. }
    unfold register_manager at 1. unfold session_set in Hin.
    destruct (dict_get session_id (session_clients m1)) as [clients|] eqn:G.
    + unfold dict_mem. rewrite G, G.
      unfold set_add. rewrite Hin.
      rewrite dict_set_same_value by exact G. now destruct m1.
    + discriminate.
  - intros other Hne. now apply register_other_session.
Qed.

Lemma register_session_client_joins_witness :
  "s2" <> "s1" /\
  dict_get "s2"
    (session_clients
       (ws_manager
          (snd (register_session_client "s1" "C"
                  (Scenarios.world_of Scenarios.two_in_session
                     Transcription.init)))))
  = None.
Proof.
  assert (H : "s2" <> "s1") by discriminate.
  split; [exact H|].
  exact (proj1 (proj2 (proj2 (proj2 (proj2
    (register_session_client_joins "s1" "C"
       (Scenarios.world_of Scenarios.two_in_session Transcription.init))))))
    "s2" H).
Defined.

(** X2.  While an identity is in neither dictionary, connecting a socket
    under it adds one connection, and disconnecting it again gives back the
    manager exactly as it was. *)
Theorem connect_then_disconnect_restores (env : Env) (websocket : WebSocket)
    (client_id : string) (w : World) :
  accept_result env websocket = None ->
  absent client_id (ws_manager w) ->
  let w1 := snd (connect env websocket client_id w) in
  let w2 := snd (disconnect client_id w1) in
  List.length (active_connections (ws_manager w1))
  = S (List.length (active_connections (ws_manager w))) /\
  ws_manager w2 = ws_manager w.
Proof.
  intros Hacc [Hreg Hses] w1 w2.
  assert (H1 : ws_manager w1
               = {| active_connections :=
                      dict_set client_id websocket
                        (active_connections (ws_manager w));
                    session_clients := session_clients (ws_manager w) |}).
  { subst w1. unfold connect, accept, bind. now rewrite Hacc. }
  assert (H2 : ws_manager w2 = disconnect_manager client_id (ws_manager w1))
    by reflexivity.
  split.
  - rewrite H1. cbn [active_connections].
    assert (Hk : List.length (dict_keys
                                (dict_set client_id websocket
                                   (active_connections (ws_manager w))))
                 = S (List.length
                        (dict_keys (active_connections (ws_manager w))))).
    { rewrite dict_keys_set. unfold dict_mem. rewrite Hreg.
      rewrite length_app. simpl. lia. }
    unfold dict_keys in Hk. now rewrite !length_map in Hk.
  - rewrite H2, H1. unfold disconnect_manager.
    cbn [active_connections session_clients].
    unfold dict_mem. rewrite dict_get_set_same.
    rewrite dict_del_set_fresh by exact Hreg.
    pose proof (ManagerSpec.disconnect_manager_noop client_id (ws_manager w)
                  (conj Hreg Hses)) as Hnoop.
    unfold disconnect_manager, dict_mem in Hnoop. rewrite Hreg in Hnoop.
    destruct (ws_manager w) as [conns sessions].
    cbn [active_connections session_clients] in *.
    inversion Hnoop as [Hs]. now rewrite !Hs.
Qed.

Lemma connect_then_disconnect_restores_witness :
  accept_result Scenarios.env_ok 3%nat = None /\
  absent "C" Scenarios.two_in_session /\
  ws_manager
    (snd (disconnect "C"
            (snd (connect Scenarios.env_ok 3%nat "C"
                    (Scenarios.world_of Scenarios.two_in_session
                       Transcription.init)))))
  = Scenarios.two_in_session.
Proof.
  assert (H : absent "C" Scenarios.two_in_session).
  { split; [reflexivity|].
    intros session_id clients [Heq|[]]. inversion Heq; subst.
    intros [E|[E|[]]]; discriminate. }
  split; [reflexivity|]. split; [exact H|].
  exact (proj2 (connect_then_disconnect_restores Scenarios.env_ok 3%nat "C"
                  (Scenarios.world_of Scenarios.two_in_session
                     Transcription.init) eq_refl H)).
Defined.

(** *** What every method keeps *)

Lemma py_for_keeps {X Acc : Type} (P : Manager -> Prop)
    (live : Manager -> list X) (changed : exn) (body : X -> Acc -> M Acc) :
  (forall x acc w, P (ws_manager w) -> P (ws_manager (snd (body x acc w)))) ->
  forall n pos used0 acc w,
    P (ws_manager w) ->
    P (ws_manager (snd (py_for live changed body n pos used0 acc w))).
Proof.
  intros Hbody. induction n as [|n IH]; intros pos used0 acc w H; simpl.
  - destruct (negb (List.length (live (ws_manager w)) =? used0)%nat);
      [exact H|].
    destruct (nth_error (live (ws_manager w)) pos); exact H.
  - destruct (negb (List.length (live (ws_manager w)) =? used0)%nat);
      [exact H|].
    destruct (nth_error (live (ws_manager w)) pos) as [x|]; [|exact H].
    unfold bind. pose proof (Hbody x acc w H) as Hx.
    destruct (body x acc w) as [[acc'|e] w']; simpl in Hx.
    + now apply IH.
    + exact Hx.
Qed.

Lemma for_list_keeps {X : Type} (P : Manager -> Prop) (body : X -> M unit) :
  (forall x w, P (ws_manager w) -> P (ws_manager (snd (body x w)))) ->
  forall xs w,
    P (ws_manager w) -> P (ws_manager (snd (for_list xs body w))).
Proof.
  intros Hbody. induction xs as [|x xs IH]; intros w H; simpl; [exact H|].
  unfold bind. pose proof (Hbody x w H) as Hx.
  destruct (body x w) as [[[]|e] w']; simpl in Hx; [now apply IH|exact Hx].
Qed.

Section Kept.
Context (P : Manager -> Prop).
Hypothesis disconnect_keeps :
  forall client_id m, P m -> P (disconnect_manager client_id m).
Context (env : Env).

Lemma send_to_client_keeps client_id message w :
  P (ws_manager w) ->
  P (ws_manager (snd (send_to_client env client_id message w))).
Proof.
  intros H. unfold send_to_client, bind, get_manager.
  destruct (dict_get client_id (active_connections (ws_manager w)))
    as [websocket|]; [|exact H].
  unfold try_except, send_json.
  destruct (send_result env (trace w) websocket); cbn; [|exact H].
  now apply disconnect_keeps.
Qed.

Lemma broadcast_keeps message w :
  P (ws_manager w) -> P (ws_manager (snd (broadcast env message w))).
Proof.
  intros H. unfold broadcast, bind, py_for_each.
  pose proof (py_for_keeps P active_connections dict_changed
                (broadcast_step env message)) as Hloop.
  specialize (Hloop
    (fun x acc w0 H0 =>
       eq_ind_r P H0
         (BroadcastSpec.broadcast_step_keeps_manager env message x acc w0))).
  specialize (Hloop (List.length (active_connections (ws_manager w))) 0%nat
                (List.length (active_connections (ws_manager w))) [] w H).
  destruct (py_for active_connections dict_changed
              (broadcast_step env message)
              (List.length (active_connections (ws_manager w))) 0
              (List.length (active_connections (ws_manager w))) [] w)
    as [[failed|e] w']; simpl in Hloop; [|exact Hloop].
  apply for_list_keeps; [|exact Hloop].
  intros x w0 H0. cbn. now apply disconnect_keeps.
Qed.

Lemma broadcast_to_session_keeps session_id message w :
  P (ws_manager w) ->
  P (ws_manager (snd (broadcast_to_session env session_id message w))).
Proof.
  intros H. unfold broadcast_to_session, bind, get_manager.
  destruct (dict_mem session_id (session_clients (ws_manager w)));
    [|exact H].
  unfold py_for_each. apply py_for_keeps; [|exact H].
  intros x acc w0. apply send_to_client_keeps.
Qed.

End Kept.

Lemma disconnect_manager_session_keys (client_id : string) (m : Manager) :
  dict_keys (session_clients (disconnect_manager client_id m))
  = dict_keys (session_clients m).
Proof.
  unfold disconnect_manager, dict_keys. simpl. rewrite map_map.
  apply map_ext. now intros [session_id clients].
Qed.

Lemma disconnect_manager_wf (client_id : string) (m : Manager) :
  manager_wf m -> manager_wf (disconnect_manager client_id m).
Proof.
  intros [Hreg [Hkeys Hsets]]. repeat apply conj.
  - simpl. destruct (dict_mem client_id (active_connections m));
      [now apply BroadcastSpec.dict_del_keeps_nodup|exact Hreg].
  - now rewrite disconnect_manager_session_keys.
  - simpl. apply Forall_map. eapply Forall_impl; [|exact Hsets].
    intros [session_id clients] Hnd. simpl in *.
    destruct (set_mem client_id clients); [|exact Hnd].
    now apply NoDup_filter.
Qed.

Lemma Forall_dict_set {V : Type} (Q : string * V -> Prop) (k : string)
    (v : V) (d : dict V) :
  Forall Q d -> Q (k, v) -> Forall Q (dict_set k v d).
Proof.
  intros Hd Hv. induction d as [|[k' v'] d IH]; simpl.
  - now constructor.
  - inversion Hd; subst. destruct (String.eqb k' k); constructor; auto.
Qed.

Lemma register_manager_wf (session_id client_id : string) (m : Manager) :
  manager_wf m -> manager_wf (register_manager session_id client_id m).
Proof.
  intros [Hreg [Hkeys Hsets]]. unfold register_manager.
  set (sessions := if dict_mem session_id (session_clients m)
                   then session_clients m
                   else dict_set session_id [] (session_clients m)).
  assert (Hk : NoDup (dict_keys sessions)).
  { subst sessions. destruct (dict_mem session_id (session_clients m));
      [exact Hkeys|now apply BroadcastSpec.dict_set_keeps_nodup]. }
  assert (Hs : Forall (fun entry : string * pyset => NoDup (snd entry))
                 sessions).
  { subst sessions. destruct (dict_mem session_id (session_clients m));
      [exact Hsets|]. apply Forall_dict_set; [exact Hsets|constructor]. }
  repeat apply conj; cbn [active_connections session_clients].
  - exact Hreg.
  - destruct (dict_get session_id sessions);
      [now apply BroadcastSpec.dict_set_keeps_nodup|exact Hk].
  - destruct (dict_get session_id sessions) as [clients|] eqn:G; [|exact Hs].
    apply Forall_dict_set; [exact Hs|]. simpl. apply set_add_nodup.
    apply dict_get_in in G.
    exact (proj1 (Forall_forall _ _) Hs _ G).
Qed.

(** X3.  The shape of the manager is an invariant: the empty manager has
    unique identities, unique session ids and duplicate-free session sets,
    and every method keeps them so, whatever the transport does and also
    when a broadcast ends with an exception. *)
Theorem manager_methods_keep_shape (env : Env) (w : World) :
  manager_wf (ws_manager w) ->
  manager_wf init /\
  (forall websocket client_id,
     manager_wf (ws_manager (snd (connect env websocket client_id w)))) /\
  (forall client_id,
     manager_wf (ws_manager (snd (disconnect client_id w)))) /\
  (forall session_id client_id,
     manager_wf
       (ws_manager (snd (register_session_client session_id client_id w)))) /\
  (forall client_id message,
     manager_wf (ws_manager (snd (send_to_client env client_id message w)))) /\
  (forall message,
     manager_wf (ws_manager (snd (broadcast env message w)))) /\
  (forall session_id message,
     manager_wf
       (ws_manager (snd (broadcast_to_session env session_id message w)))).
Proof.
  intros Hwf.
  split; [repeat constructor|].
  split.
  { intros websocket client_id. unfold connect, accept, bind.
    destruct (accept_result env websocket); cbn; [exact Hwf|].
    destruct Hwf as [Hreg [Hkeys Hsets]].
    split; [|split]; simpl; trivial.
    now apply BroadcastSpec.dict_set_keeps_nodup. }
  split; [intros client_id; now apply disconnect_manager_wf|].
  split; [intros session_id client_id; now apply register_manager_wf|].
  split.
  { intros client_id message.
    apply send_to_client_keeps; [apply disconnect_manager_wf|exact Hwf]. }
  split.
  { intros message.
    apply broadcast_keeps; [apply disconnect_manager_wf|exact Hwf]. }
  intros session_id message.
  apply broadcast_to_session_keeps; [apply disconnect_manager_wf|exact Hwf].
Qed.

Lemma manager_methods_keep_shape_witness :
  manager_wf Scenarios.two_in_session /\
  manager_wf
    (ws_manager
       (snd (broadcast_to_session Scenarios.env_1_down "s1" Scenarios.note
               (Scenarios.world_of Scenarios.two_in_session
                  Transcription.init)))).
Proof.
  assert (H : manager_wf Scenarios.two_in_session).
  { repeat apply conj; simpl.
    - repeat constructor; simpl; intuition discriminate.
    - repeat constructor; simpl; intuition.
    - repeat constructor; simpl; intuition discriminate. }
  split; [exact H|].
  exact (proj2 (proj2 (proj2 (proj2 (proj2 (proj2
    (manager_methods_keep_shape Scenarios.env_1_down
       (Scenarios.world_of Scenarios.two_in_session Transcription.init) H))))))
    "s1" Scenarios.note).
Defined.

Lemma register_manager_session_keys (session_id client_id other : string)
    (m : Manager) :
  In other (dict_keys (session_clients m)) ->
  In other (dict_keys (session_clients
                         (register_manager session_id client_id m))).
Proof.
  intros Hin. unfold register_manager. cbn [session_clients].
  set (sessions := if dict_mem session_id (session_clients m)
                   then session_clients m
                   else dict_set session_id [] (session_clients m)).
  assert (Hs : In other (dict_keys sessions)).
  { subst sessions. destruct (dict_mem session_id (session_clients m)) eqn:E;
      [exact Hin|].
    rewrite dict_keys_set, E. apply in_or_app. now left. }
  destruct (dict_get session_id sessions) as [clients|] eqn:G; [|exact Hs].
  rewrite dict_keys_set. unfold dict_mem. now rewrite G.
Qed.

(** X4.  No method ever removes a session: a session id that is in
    [session_clients] is still there after any method, whatever the
    transport does.  [disconnect] only takes the client out of the set, so a
    session whose last member disconnects stays, with an empty set. *)
Theorem session_entries_are_never_removed (env : Env) (w : World)
    (session_id : string) :
  In session_id (dict_keys (session_clients (ws_manager w))) ->
  let present (r : World) :=
    In session_id (dict_keys (session_clients (ws_manager r))) in
  (forall websocket client_id,
     present (snd (connect env websocket client_id w))) /\
  (forall client_id, present (snd (disconnect client_id w))) /\
  (forall other client_id,
     present (snd (register_session_client other client_id w))) /\
  (forall client_id message,
     present (snd (send_to_client env client_id message w))) /\
  (forall message, present (snd (broadcast env message w))) /\
  (forall other message,
     present (snd (broadcast_to_session env other message w))) /\
  (forall client_id clients,
     dict_get session_id (session_clients (ws_manager w)) = Some clients ->
     dict_get session_id
       (session_clients (ws_manager (snd (disconnect client_id w))))
     = Some (set_remove client_id clients)).
Proof.
  intros Hin present.
  assert (Hd : forall client_id m,
             In session_id (dict_keys (session_clients m)) ->
             In session_id
               (dict_keys (session_clients (disconnect_manager client_id m)))).
  { intros client_id m H. now rewrite disconnect_manager_session_keys. }
  split.
  { intros websocket client_id. unfold present, connect, accept, bind.
    destruct (accept_result env websocket); exact Hin. }
  split; [intros client_id; now apply Hd|].
  split.
  { intros other client_id. unfold present. cbn.
    now apply register_manager_session_keys. }
  split.
  { intros client_id message.
    exact (send_to_client_keeps _ Hd env client_id message w Hin). }
  split.
  { intros message. exact (broadcast_keeps _ Hd env message w Hin). }
  split.
  { intros other message.
    exact (broadcast_to_session_keeps _ Hd env other message w Hin). }
  intros client_id clients Hget. cbn.
  rewrite (SessionBroadcastSpec.dict_get_map_values
             (fun clients : pyset =>
                if set_mem client_id clients
                then set_remove client_id clients else clients)).
  rewrite Hget. cbn. destruct (set_mem client_id clients) eqn:E;
    [reflexivity|].
  rewrite set_remove_absent; [reflexivity|].
  intros H. apply set_mem_in in H. congruence.
Qed.

Lemma session_entries_are_never_removed_witness :
  In "s1" (dict_keys (session_clients Scenarios.two_in_session)) /\
  In "s1"
    (dict_keys
       (session_clients
          (ws_manager
             (snd (disconnect "B"
                     (snd (disconnect "A"
                             (Scenarios.world_of Scenarios.two_in_session
                                Transcription.init)))))))).
Proof.
  assert (H : In "s1" (dict_keys (session_clients Scenarios.two_in_session)))
    by now left.
  split; [exact H|].
  apply (proj1 (proj2
    (session_entries_are_never_removed Scenarios.env_ok
       (snd (disconnect "A"
               (Scenarios.world_of Scenarios.two_in_session
                  Transcription.init))) "s1"
       (proj1 (proj2
          (session_entries_are_never_removed Scenarios.env_ok
             (Scenarios.world_of Scenarios.two_in_session Transcription.init)
             "s1" H)) "A")))).
Defined.

(** X5.  [send_to_client] never raises.  For an identity that is not
    connected it does nothing at all; for a connected one it makes one
    write, and when that write fails the client is disconnected, so that it
    is afterwards in neither the registry nor any session. *)
Theorem send_to_client_never_raises (env : Env) (client_id : string)
    (message : Message) (w : World) :
  let r := send_to_client env client_id message w in
  fst r = Return tt /\
  (dict_get client_id (active_connections (ws_manager w)) = None ->
   snd r = w) /\
  (forall websocket,
     dict_get client_id (active_connections (ws_manager w)) = Some websocket ->
     send_result env (trace w) websocket = None ->
     snd r = with_trace w [EvSend websocket message true]) /\
  (forall websocket e,
     dict_get client_id (active_connections (ws_manager w)) = Some websocket ->
     send_result env (trace w) websocket = Some e ->
     snd r = after_disconnect client_id
               (with_trace w [EvSend websocket message false]) /\
     absent client_id (ws_manager (snd r))).
Proof.
  unfold send_to_client, bind, get_manager. cbn zeta.
  destruct (dict_get client_id (active_connections (ws_manager w)))
    as [websocket|] eqn:G.
  - unfold try_except, send_json.
    destruct (send_result env (trace w) websocket) as [e|] eqn:Hs; cbn.
    + split; [reflexivity|]. split; [discriminate|].
      split; [intros ws Hw Hn; inversion Hw; subst; congruence|].
      intros ws e' Hw _. inversion Hw; subst.
      split; [reflexivity|]. apply ManagerSpec.disconnect_manager_absent.
    + split; [reflexivity|]. split; [discriminate|].
      split; [intros ws Hw _; now inversion Hw|].
      intros ws e' Hw He. inversion Hw; subst. congruence.
  - cbn. split; [reflexivity|]. split; [reflexivity|].
    split; intros; discriminate.
Qed.

Lemma send_to_client_never_raises_witness :
  dict_get "A" (active_connections Scenarios.two_in_session) = Some 1%nat /\
  absent "A"
    (ws_manager
       (snd (send_to_client Scenarios.env_1_down "A" Scenarios.note
               (Scenarios.world_of Scenarios.two_in_session
                  Transcription.init)))).
Proof.
  split; [reflexivity|].
  exact (proj2 (proj2 (proj2 (proj2
    (send_to_client_never_raises Scenarios.env_1_down "A" Scenarios.note
       (Scenarios.world_of Scenarios.two_in_session Transcription.init))))
    1%nat (Exn TransportError "connection lost") eq_refl eq_refl)).
Defined.

(** X6.  While no write fails, [broadcast_to_session] returns and leaves
    the manager as it is; it writes the message once to every member of the
    session that is connected, in the order of the set, and to nobody else.
    For a session id that is not known it does nothing. *)
Theorem broadcast_to_session_reaches_members (env : Env)
    (session_id : string) (message : Message) (w : World) :
  (forall history websocket, send_result env history websocket = None) ->
  let r := broadcast_to_session env session_id message w in
  let m := ws_manager w in
  fst r = Return tt /\
  ws_manager (snd r) = m /\
  trace (snd r)
  = trace w ++ session_sends m message (session_set session_id m) /\
  (forall client_id websocket,
     In client_id (session_set session_id m) ->
     dict_get client_id (active_connections m) = Some websocket ->
     In (EvSend websocket message true)
        (session_sends m message (session_set session_id m))) /\
  (forall ev,
     In ev (session_sends m message (session_set session_id m)) ->
     exists client_id websocket,
       In client_id (session_set session_id m) /\
       dict_get client_id (active_connections m) = Some websocket /\
       ev = EvSend websocket message true) /\
  (dict_get session_id (session_clients m) = None -> snd r = w).
Proof.
  intros Hok r m. subst r.
  rewrite (SessionBroadcastSpec.broadcast_to_session_delivers env session_id
             message w Hok).
  cbn [fst snd ws_manager trace with_trace]. fold m.
  split; [reflexivity|]. split; [reflexivity|]. split; [reflexivity|].
  split; [|split].
  - intros client_id websocket Hin Hget. unfold session_sends.
    apply in_flat_map. exists client_id. split; [exact Hin|].
    rewrite Hget. now left.
  - intros ev Hev. unfold session_sends in Hev. apply in_flat_map in Hev.
    destruct Hev as [client_id [Hin Hev]].
    destruct (dict_get client_id (active_connections m)) as [websocket|]
      eqn:Hget; [|destruct Hev].
    destruct Hev as [<-|[]]. now exists client_id, websocket.
  - intros Hnone. unfold session_set. rewrite Hnone. cbn.
    apply LoopFacts.with_trace_nil.
Qed.

Lemma broadcast_to_session_reaches_members_witness :
  (forall (history : list Event) (websocket : WebSocket),
     send_result Scenarios.env_ok history websocket = None) /\
  trace (snd (broadcast_to_session Scenarios.env_ok "s1" Scenarios.note
                (Scenarios.world_of Scenarios.two_in_session
                   Transcription.init)))
  = [EvSend 1%nat Scenarios.note true; EvSend 2%nat Scenarios.note true].
Proof.
  split; [reflexivity|].
  exact (proj1 (proj2 (proj2
    (broadcast_to_session_reaches_members Scenarios.env_ok "s1" Scenarios.note
       (Scenarios.world_of Scenarios.two_in_session Transcription.init)
       (fun _ _ => eq_refl))))).
Defined.

(** *** A failed write in the middle of a session broadcast *)

Section FailedWrite.
Context (env : Env) (fails : WebSocket -> option exn).
Hypothesis transport :
  forall history websocket, send_result env history websocket = fails websocket.
Context (session_id : string) (message : Message).

Lemma send_to_client_quiet (client_id : string) (w : World) :
  (forall websocket,
     dict_get client_id (active_connections (ws_manager w)) = Some websocket ->
     fails websocket = None) ->
  send_to_client env client_id message w
  = (Return tt,
     with_trace w (session_sends (ws_manager w) message [client_id])).
Proof.
  intros Hok. unfold send_to_client, bind, get_manager, session_sends.
  cbn [flat_map].
  destruct (dict_get client_id (active_connections (ws_manager w)))
    as [websocket|].
  - unfold try_except, send_json. rewrite transport, (Hok _ eq_refl).
    reflexivity.
  - unfold ret. cbn [app]. now rewrite LoopFacts.with_trace_nil.
Qed.

Lemma py_for_until_failure (m : Manager) (c : string) (post : pyset)
    (websocket : WebSocket) (e : exn) :
  dict_get c (active_connections m) = Some websocket ->
  fails websocket = Some e ->
  forall todo done n w0,
    ws_manager w0 = m ->
    dict_get session_id (session_clients m)
      = Some (done ++ todo ++ c :: post) ->
    (n + List.length done
     = List.length (done ++ todo ++ c :: post))%nat ->
    (forall x websocket',
       In x todo ->
       dict_get x (active_connections m) = Some websocket' ->
       fails websocket' = None) ->
    py_for (session_set session_id) set_changed
      (fun (client_id : string) (_ : unit) =>
         send_to_client env client_id message)
      n (List.length done) (List.length (done ++ todo ++ c :: post)) tt w0
    = (Raise set_changed,
       {| ws_manager := disconnect_manager c m;
          transcription_service := transcription_service w0;
          trace := trace w0 ++ session_sends m message todo
                   ++ [EvSend websocket message false; EvDisconnect c] |}).
Proof.
  intros Hreg Hfail.
  induction todo as [|x todo IH]; intros done n w0 Hm Hset Hn Hpre.
  - assert (Hlive : session_set session_id (ws_manager w0)
                    = done ++ c :: post)
      by (unfold session_set; now rewrite Hm, Hset).
    cbn [app] in *.
    destruct n as [|n]; [rewrite length_app in Hn; simpl in Hn; lia|].
    cbn [py_for]. rewrite Hlive, Nat.eqb_refl. cbn [negb].
    rewrite nth_error_app2 by lia. rewrite Nat.sub_diag. cbn [nth_error].
    unfold bind.
    assert (Hstep : send_to_client env c message w0
                    = (Return tt,
                       {| ws_manager := disconnect_manager c m;
                          transcription_service := transcription_service w0;
                          trace := trace w0
                                   ++ [EvSend websocket message false;
                                       EvDisconnect c] |})).
    { unfold send_to_client, bind, get_manager. rewrite Hm, Hreg.
      unfold try_except, send_json. rewrite transport, Hfail. cbn.
      rewrite Hm, <- app_assoc. reflexivity. }
    rewrite Hstep.
    assert (Hshort : (List.length
                        (session_set session_id (disconnect_manager c m))
                      =? List.length (done ++ c :: post))%nat = false).
    { rewrite (SessionBroadcastSpec.session_set_after_disconnect _ _ _ _ Hset).
      assert (Hin : In c (done ++ c :: post))
        by (apply in_or_app; right; now left).
      assert (Hmem : set_mem c (done ++ c :: post) = true)
        by now apply set_mem_in.
      rewrite Hmem. apply Nat.eqb_neq.
      pose proof (set_remove_shorter c _ Hin). lia. }
    destruct n as [|n]; cbn [py_for ws_manager]; rewrite Hshort; reflexivity.
  - assert (Hlive : session_set session_id (ws_manager w0)
                    = done ++ (x :: todo) ++ c :: post)
      by (unfold session_set; now rewrite Hm, Hset).
    destruct n as [|n];
      [rewrite !length_app in Hn; simpl in Hn; lia|].
    cbn [py_for]. rewrite Hlive, Nat.eqb_refl. cbn [negb].
    rewrite nth_error_app2 by lia. rewrite Nat.sub_diag. cbn [nth_error app].
    unfold bind. rewrite send_to_client_quiet.
    2:{ intros websocket' Hget. rewrite Hm in Hget.
        apply (Hpre x websocket'); [now left|exact Hget]. }
    assert (E1 : (done ++ [x]) ++ todo ++ c :: post
                 = done ++ (x :: todo) ++ c :: post)
      by (rewrite <- app_assoc; reflexivity).
    assert (E2 : List.length (done ++ [x]) = S (List.length done))
      by (rewrite length_app; simpl; lia).
    change (done ++ x :: todo ++ c :: post)
      with (done ++ (x :: todo) ++ c :: post).
    rewrite <- E1, <- E2.
    rewrite IH.
    + rewrite Hm. cbn [trace with_trace transcription_service].
      unfold session_sends. cbn [flat_map].
      rewrite app_nil_r, <- !app_assoc. reflexivity.
    + exact Hm.
    + now rewrite E1.
    + rewrite E1, E2. lia.
    + intros y websocket' Hy. apply Hpre. now right.
Qed.

(** X7.  On a transport where each socket either always takes a write or
    always fails: if the session set iterates first over members whose
    writes succeed (or that are not connected) and then reaches a connected
    member whose write fails, [broadcast_to_session] writes to the members
    before it, disconnects the failing member and then raises
    [RuntimeError]; the members after it are not written to. *)
Theorem broadcast_to_session_stops_at_failed_write (w : World)
    (pre : pyset) (c : string) (post : pyset) (websocket : WebSocket)
    (e : exn) :
  dict_get session_id (session_clients (ws_manager w))
    = Some (pre ++ c :: post) ->
  (forall x websocket',
     In x pre ->
     dict_get x (active_connections (ws_manager w)) = Some websocket' ->
     fails websocket' = None) ->
  dict_get c (active_connections (ws_manager w)) = Some websocket ->
  fails websocket = Some e ->
  broadcast_to_session env session_id message w
  = (Raise set_changed,
     {| ws_manager := disconnect_manager c (ws_manager w);
        transcription_service := transcription_service w;
        trace := trace w ++ session_sends (ws_manager w) message pre
                 ++ [EvSend websocket message false; EvDisconnect c] |}).
Proof.
  intros Hset Hpre Hreg Hfail.
  unfold broadcast_to_session, bind, get_manager, dict_mem.
  rewrite Hset. unfold py_for_each.
  assert (Hlive : session_set session_id (ws_manager w) = pre ++ c :: post)
    by (unfold session_set; now rewrite Hset).
  rewrite Hlive.
  exact (py_for_until_failure (ws_manager w) c post websocket e Hreg Hfail
           pre [] (List.length (pre ++ c :: post)) w eq_refl Hset
           (Nat.add_0_r _) Hpre).
Qed.

End FailedWrite.

Lemma broadcast_to_session_stops_at_failed_write_witness :
  let m := {| active_connections := [("A", 1%nat); ("B", 2%nat); ("C", 3%nat)];
              session_clients := [("s1", ["B"; "A"; "C"])] |} in
  broadcast_to_session Scenarios.env_1_down "s1" Scenarios.note
    (Scenarios.world_of m Transcription.init)
  = (Raise set_changed,
     {| ws_manager := disconnect_manager "A" m;
        transcription_service := Transcription.init;
        trace := [EvSend 2%nat Scenarios.note true;
                  EvSend 1%nat Scenarios.note false; EvDisconnect "A"] |}).
Proof.
  intros m.
  apply (broadcast_to_session_stops_at_failed_write Scenarios.env_1_down
           (fun websocket =>
              if (websocket =? 1)%nat
              then Some (Exn TransportError "connection lost") else None)
           (fun _ _ => eq_refl) "s1" Scenarios.note
           (Scenarios.world_of m Transcription.init)
           ["B"] "A" ["C"] 1%nat (Exn TransportError "connection lost")
           eq_refl).
  - intros x websocket' [<-|[]] H. inversion H. reflexivity.
  - reflexivity.
  - reflexivity.
Defined.

(** X8.  [get_active_count] follows the registry: with unique identities,
    a successful [connect] raises it by one for a new identity and leaves it
    for a registered one, and [disconnect] lowers it by one for a registered
    identity and leaves it for any other. *)
Theorem active_count_follows_registry (env : Env) (websocket : WebSocket)
    (client_id : string) (w : World) :
  NoDup (dict_keys (active_connections (ws_manager w))) ->
  let registered := dict_mem client_id (active_connections (ws_manager w)) in
  let count (r : World) := fst (get_active_count r) in
  exists n,
    count w = Return n /\
    (accept_result env websocket = None ->
     count (snd (connect env websocket client_id w))
     = Return (if registered then n else S n)) /\
    count (snd (disconnect client_id w))
    = Return (if registered then Nat.pred n else n).
Proof.
  intros Hnd registered count.
  exists (List.length (active_connections (ws_manager w))).
  split; [reflexivity|]. split.
  - intros Hacc. unfold count, get_active_count, connect, accept, bind.
    rewrite Hacc. cbn. f_equal.
    pose proof (dict_keys_set client_id websocket
                  (active_connections (ws_manager w))) as Hk.
    apply (f_equal (@List.length string)) in Hk.
    unfold dict_keys in Hk. rewrite length_map in Hk. rewrite Hk.
    subst registered.
    destruct (dict_mem client_id (active_connections (ws_manager w))).
    + now rewrite length_map.
    + rewrite length_app, length_map. simpl. lia.
  - unfold count, get_active_count, bind. cbn. f_equal. subst registered.
    destruct (dict_mem client_id (active_connections (ws_manager w))) eqn:E;
      [|reflexivity].
    pose proof (dict_del_length_present client_id _ Hnd E). lia.
Qed.

Lemma active_count_follows_registry_witness :
  NoDup (dict_keys (active_connections Scenarios.two_in_session)) /\
  fst (get_active_count
         (snd (disconnect "A"
                 (Scenarios.world_of Scenarios.two_in_session
                    Transcription.init))))
  = Return 1%nat.
Proof.
  assert (Hnd : NoDup (dict_keys
                         (active_connections Scenarios.two_in_session))).
  { repeat constructor; simpl; intuition discriminate. }
  split; [exact Hnd|].
  destruct (active_count_follows_registry Scenarios.env_ok 1%nat "A"
              (Scenarios.world_of Scenarios.two_in_session Transcription.init)
              Hnd) as [n [Hn [_ Hd]]].
  inversion Hn; subst. exact Hd.
Defined.

Lemma set_remove_length (x : string) (s : pyset) :
  NoDup s -> In x s ->
  List.length (set_remove x s) = Nat.pred (List.length s).
Proof.
  unfold set_remove. induction s as [|y s IH]; simpl; [contradiction|].
  intros Hnd Hin. inversion Hnd as [|? ? Hnotin Hnd']; subst.
  destruct (String.eqb y x) eqn:E; simpl.
  - apply String.eqb_eq in E. subst y.
    fold (set_remove x s). now rewrite set_remove_absent.
  - destruct Hin as [->|Hin]; [rewrite String.eqb_refl in E; discriminate|].
    rewrite IH by assumption. destruct s; [contradiction|reflexivity].
Qed.

(** X21.  [get_session_client_count] never raises; it gives 0 for a session
    id that is not known, and otherwise the number of members.  On a
    well-shaped manager that number goes up by one when a new member
    registers and stays when a member registers again, and goes down by one
    when a member disconnects and stays when anybody else does. *)
Theorem session_count_follows_membership (session_id client_id : string)
    (w : World) :
  manager_wf (ws_manager w) ->
  let count (r : World) := fst (get_session_client_count session_id r) in
  let member := set_mem client_id (session_set session_id (ws_manager w)) in
  exists n,
    count w = Return n /\
    n = List.length (session_set session_id (ws_manager w)) /\
    (dict_get session_id (session_clients (ws_manager w)) = None -> n = 0%nat)
    /\
    count (snd (register_session_client session_id client_id w))
    = Return (if member then n else S n) /\
    count (snd (disconnect client_id w))
    = Return (if member then Nat.pred n else n).
Proof.
  intros [_ [_ Hsets]] count member.
  assert (Hcount : forall r,
             count r
             = Return (List.length (session_set session_id (ws_manager r)))).
  { intros r. unfold count, get_session_client_count, bind, get_manager,
      session_set.
    now destruct (dict_get session_id (session_clients (ws_manager r))). }
  exists (List.length (session_set session_id (ws_manager w))).
  split; [apply Hcount|]. split; [reflexivity|]. split.
  { intros Hnone. unfold session_set. now rewrite Hnone. }
  split.
  - rewrite Hcount. cbn [snd register_session_client modify_manager ws_manager].
    rewrite session_set_register. unfold set_add. fold member.
    destruct member; [reflexivity|]. rewrite length_app. simpl. f_equal. lia.
  - rewrite Hcount.
    change (ws_manager (snd (disconnect client_id w)))
      with (disconnect_manager client_id (ws_manager w)).
    subst member.
    destruct (dict_get session_id (session_clients (ws_manager w)))
      as [clients|] eqn:G.
    + rewrite (SessionBroadcastSpec.session_set_after_disconnect _ _ _ _ G).
      assert (Hset : session_set session_id (ws_manager w) = clients)
        by (unfold session_set; now rewrite G).
      rewrite Hset. destruct (set_mem client_id clients) eqn:E;
        [|reflexivity].
      f_equal. apply set_remove_length.
      * apply dict_get_in in G.
        exact (proj1 (Forall_forall _ _) Hsets _ G).
      * now apply set_mem_in.
    + assert (G' : dict_get session_id
                     (session_clients
                        (disconnect_manager client_id (ws_manager w)))
                   = None).
      { cbn. rewrite (SessionBroadcastSpec.dict_get_map_values
                        (fun clients : pyset =>
                           if set_mem client_id clients
                           then set_remove client_id clients else clients)).
        now rewrite G. }
      unfold session_set. rewrite G', G. reflexivity.
Qed.

Lemma session_count_follows_membership_witness :
  manager_wf Scenarios.two_in_session /\
  fst (get_session_client_count "s1"
         (snd (disconnect "A"
                 (Scenarios.world_of Scenarios.two_in_session
                    Transcription.init))))
  = Return 1%nat.
Proof.
  assert (H : manager_wf Scenarios.two_in_session).
  { repeat apply conj; simpl.
    - repeat constructor; simpl; intuition discriminate.
    - repeat constructor; simpl; intuition.
    - repeat constructor; simpl; intuition discriminate. }
  split; [exact H|].
  destruct (session_count_follows_membership "s1" "A"
              (Scenarios.world_of Scenarios.two_in_session Transcription.init)
              H) as [n [Hn [_ [_ [_ Hd]]]]].
  inversion Hn; subst. exact Hd.
Defined.

End ManagerExtra.

(** ** Samples, text and files *)

Module TranscriptionExtra.

Import Reference Transcription.

(** *** The sample buffer *)

Lemma int16_of_spec (lo hi : Byte.byte) :
  (-32768 <= int16_of lo hi <= 32767)%Z /\
  (int16_of lo hi mod 65536
   = Z.of_N (Byte.to_N lo) + 256 * Z.of_N (Byte.to_N hi))%Z.
Proof.
  unfold int16_of.
  pose proof (Byte.to_N_bounded lo). pose proof (Byte.to_N_bounded hi).
  set (u := (Z.of_N (Byte.to_N lo) + 256 * Z.of_N (Byte.to_N hi))%Z).
  assert (Hu : (0 <= u < 65536)%Z) by (subst u; lia).
  destruct (u <? 32768)%Z eqn:E.
  - apply Z.ltb_lt in E. split; [lia|]. apply Z.mod_small. lia.
  - apply Z.ltb_ge in E. split; [lia|].
    replace (u - 65536)%Z with (u + (-1) * 65536)%Z by lia.
    rewrite Z.mod_add by lia. apply Z.mod_small. lia.
Qed.

Lemma byte_to_N_inj (a b : Byte.byte) : Byte.to_N a = Byte.to_N b -> a = b.
Proof.
  intros H. pose proof (Byte.of_to_N a) as Ha.
  rewrite H, Byte.of_to_N in Ha. now inversion Ha.
Qed.

Lemma int16_of_inj (lo hi lo' hi' : Byte.byte) :
  int16_of lo hi = int16_of lo' hi' -> lo = lo' /\ hi = hi'.
Proof.
  intros H.
  pose proof (proj2 (int16_of_spec lo hi)) as H1.
  pose proof (proj2 (int16_of_spec lo' hi')) as H2.
  rewrite H in H1. rewrite H1 in H2.
  pose proof (Byte.to_N_bounded lo). pose proof (Byte.to_N_bounded hi).
  pose proof (Byte.to_N_bounded lo'). pose proof (Byte.to_N_bounded hi').
  split; apply byte_to_N_inj; lia.
Qed.

Lemma frombuffer_int16_length (bs : list Byte.byte) :
  forall zs, frombuffer_int16 bs = Return zs ->
             List.length bs = (2 * List.length zs)%nat.
Proof.
  induction bs as [|a|a b l IH] using TranscriptionSpec.list_pair_ind;
    intros zs H; simpl in H.
  - inversion H. reflexivity.
  - discriminate.
  - destruct (frombuffer_int16 l) as [zs'|]; [|discriminate].
    inversion H; subst. simpl. rewrite (IH zs' eq_refl). lia.
Qed.

Lemma frombuffer_int16_range (bs : list Byte.byte) :
  forall zs, frombuffer_int16 bs = Return zs ->
             Forall (fun z => (-32768 <= z <= 32767)%Z) zs.
Proof.
  induction bs as [|a|a b l IH] using TranscriptionSpec.list_pair_ind;
    intros zs H; simpl in H.
  - inversion H. constructor.
  - discriminate.
  - destruct (frombuffer_int16 l) as [zs'|]; [|discriminate].
    inversion H; subst. constructor; [apply int16_of_spec|now apply IH].
Qed.

Lemma frombuffer_int16_inj (bs : list Byte.byte) :
  forall bs' zs,
    frombuffer_int16 bs = Return zs -> frombuffer_int16 bs' = Return zs ->
    bs = bs'.
Proof.
  induction bs as [|a|a b l IH] using TranscriptionSpec.list_pair_ind;
    intros bs' zs H H'; simpl in H.
  - inversion H; subst. destruct bs' as [|a' [|b' l']]; simpl in H';
      [reflexivity|discriminate|].
    destruct (frombuffer_int16 l'); discriminate.
  - discriminate.
  - destruct (frombuffer_int16 l) as [zs1|] eqn:E; [|discriminate].
    inversion H; subst.
    destruct bs' as [|a' [|b' l']]; simpl in H'; try discriminate.
    destruct (frombuffer_int16 l') as [zs2|] eqn:E'; [|discriminate].
    inversion H' as [[Hhead Htail]]. subst zs2.
    destruct (int16_of_inj _ _ _ _ Hhead) as [-> ->].
    now rewrite (IH l' zs1 eq_refl E').
Qed.

(** X9.  [_bytes_to_audio_array] accepts exactly the buffers of even
    length.  The array has one sample for every two bytes, every sample is
    at least -1 and less than 1, and two different buffers never give the
    same array. *)
Theorem audio_array_is_normalized (audio_bytes : list Byte.byte) :
  ((exists audio_array, _bytes_to_audio_array audio_bytes = Return audio_array)
   <-> Nat.even (List.length audio_bytes) = true) /\
  (forall audio_array,
     _bytes_to_audio_array audio_bytes = Return audio_array ->
     List.length audio_bytes = (2 * List.length audio_array)%nat /\
     Forall (fun q => (-1 <= q)%Q /\ (q < 1)%Q) audio_array /\
     forall other,
       _bytes_to_audio_array other = Return audio_array ->
       other = audio_bytes).
Proof.
  split.
  - pose proof (TranscriptionSpec.frombuffer_int16_outcome audio_bytes) as Ho.
    unfold _bytes_to_audio_array. rewrite <- Nat.negb_odd.
    destruct (Nat.odd (List.length audio_bytes)).
    + destruct Ho as [e He]. rewrite He. split; [|discriminate].
      intros [a Ha]. discriminate.
    + destruct Ho as [zs Hzs]. rewrite Hzs. split; [reflexivity|].
      intros _. eexists. reflexivity.
  - intros audio_array H. unfold _bytes_to_audio_array in H.
    destruct (frombuffer_int16 audio_bytes) as [zs|] eqn:E; [|discriminate].
    inversion H; subst; clear H. split; [|split].
    + rewrite length_map. now apply frombuffer_int16_length.
    + apply Forall_map. eapply Forall_impl;
        [|exact (frombuffer_int16_range _ _ E)].
      intros z Hz. cbv beta in Hz. unfold Qle, Qlt. simpl. lia.
    + intros other Ho. unfold _bytes_to_audio_array in Ho.
      destruct (frombuffer_int16 other) as [zs'|] eqn:E'; [|discriminate].
      inversion Ho as [Hmap].
      assert (Hz : zs' = zs).
      { clear - Hmap. revert zs Hmap.
        induction zs' as [|z zs' IH]; intros [|y zs] H; simpl in H;
          try discriminate; [reflexivity|].
        inversion H. subst. f_equal. now apply IH. }
      subst zs'. symmetry. exact (frombuffer_int16_inj _ _ _ E E').
Qed.

Lemma audio_array_is_normalized_witness :
  _bytes_to_audio_array [Byte.x00; Byte.x80; Byte.xff; Byte.x7f]
  = Return [Qmake (-32768) 32768; Qmake 32767 32768] /\
  Forall (fun q => (-1 <= q)%Q /\ (q < 1)%Q)
    [Qmake (-32768) 32768; Qmake 32767 32768].
Proof.
  split; [reflexivity|].
  exact (proj1 (proj2
    (proj2 (audio_array_is_normalized
              [Byte.x00; Byte.x80; Byte.xff; Byte.x7f])
       [Qmake (-32768) 32768; Qmake 32767 32768] eq_refl))).
Defined.

(** *** Trimming *)

Lemma lstrip_head (l : list ascii) :
  match lstrip_chars l with
  | [] => True
  | c :: _ => isspace c = false
  end.
Proof.
  induction l as [|c l IH]; simpl; [exact I|].
  destruct (isspace c) eqn:E; [exact IH|exact E].
Qed.

Lemma lstrip_split (l : list ascii) :
  exists pre, l = pre ++ lstrip_chars l /\ forallb isspace pre = true.
Proof.
  induction l as [|c l [pre [Hl Hpre]]]; simpl.
  - now exists [].
  - destruct (isspace c) eqn:E.
    + exists (c :: pre). simpl. rewrite E, Hpre. split; [now f_equal|easy].
    + now exists [].
Qed.

Lemma lstrip_nil_iff (l : list ascii) :
  lstrip_chars l = [] <-> forallb isspace l = true.
Proof.
  induction l as [|c l IH]; simpl; [easy|].
  destruct (isspace c); simpl; [exact IH|easy].
Qed.

Lemma lstrip_fixed (c : ascii) (l : list ascii) :
  isspace c = false -> lstrip_chars (c :: l) = c :: l.
Proof. intros H. simpl. now rewrite H. Qed.

Lemma lstrip_app_nonspace (u : list ascii) (c : ascii) :
  isspace c = false -> lstrip_chars (u ++ [c]) = lstrip_chars u ++ [c].
Proof.
  intros H. induction u as [|d u IH]; simpl; [now rewrite H|].
  destruct (isspace d); [exact IH|reflexivity].
Qed.

Lemma forallb_rev {A : Type} (f : A -> bool) (l : list A) :
  forallb f (rev l) = forallb f l.
Proof.
  induction l as [|a l IH]; simpl; [reflexivity|].
  rewrite forallb_app, IH. simpl. rewrite andb_true_r. apply andb_comm.
Qed.

Lemma strip_chars_cases (l : list ascii) :
  (lstrip_chars l = [] /\ strip_chars l = []) \/
  (exists c t, lstrip_chars l = c :: t /\ isspace c = false /\
               strip_chars l = c :: rev (lstrip_chars (rev t))).
Proof.
  unfold strip_chars. pose proof (lstrip_head l) as Hh.
  destruct (lstrip_chars l) as [|c t]; [now left|].
  right. exists c, t. split; [reflexivity|]. split; [exact Hh|].
  simpl rev at 2. rewrite lstrip_app_nonspace by exact Hh.
  now rewrite rev_unit.
Qed.

Lemma strip_chars_stripped (l : list ascii) : stripped_chars (strip_chars l).
Proof.
  destruct (strip_chars_cases l) as [[_ ->]|[c [t [_ [Hc ->]]]]]; [exact I|].
  simpl. split; [exact Hc|].
  pose proof (lstrip_head (rev t)) as Hh.
  destruct (lstrip_chars (rev t)) as [|d u]; [exact Hc|].
  simpl rev. now rewrite last_last.
Qed.

Lemma strip_chars_split (l : list ascii) :
  exists pre post,
    l = pre ++ strip_chars l ++ post /\
    forallb isspace pre = true /\ forallb isspace post = true.
Proof.
  destruct (lstrip_split l) as [pre [Hl Hpre]].
  destruct (lstrip_split (rev (lstrip_chars l))) as [post [Hr Hpost]].
  exists pre, (rev post). split; [|split; [exact Hpre|]].
  - unfold strip_chars. rewrite <- rev_app_distr, <- Hr, rev_involutive.
    exact Hl.
  - now rewrite forallb_rev.
Qed.

Lemma strip_chars_nil_iff (l : list ascii) :
  strip_chars l = [] <-> forallb isspace l = true.
Proof.
  split.
  - intros H. destruct (strip_chars_split l) as [pre [post [Hl [H1 H2]]]].
    rewrite H in Hl. rewrite Hl, forallb_app, H1. exact H2.
  - intros H. apply lstrip_nil_iff in H. unfold strip_chars. now rewrite H.
Qed.

Lemma strip_chars_of (s : string) :
  list_ascii_of_string (strip s) = strip_chars (list_ascii_of_string s).
Proof.
  unfold strip, strip_chars. apply list_ascii_of_string_of_list_ascii.
Qed.

Lemma list_ascii_of_append (a b : string) :
  list_ascii_of_string (a ++ b)
  = list_ascii_of_string a ++ list_ascii_of_string b.
Proof. induction a as [|c a IH]; simpl; [reflexivity|now rewrite IH]. Qed.

Lemma append_assoc (a b c : string) : ((a ++ b) ++ c = a ++ (b ++ c))%string.
Proof. induction a as [|x a IH]; simpl; [reflexivity|now rewrite IH]. Qed.

Lemma append_empty_r (a : string) : (a ++ "" = a)%string.
Proof. induction a as [|x a IH]; simpl; [reflexivity|now rewrite IH]. Qed.

Lemma strip_empty_iff (s : string) :
  strip s = ""%string <-> forallb isspace (list_ascii_of_string s) = true.
Proof.
  rewrite <- strip_chars_nil_iff, <- strip_chars_of. split.
  - now intros ->.
  - intros H. rewrite <- (string_of_list_ascii_of_string (strip s)).
    now rewrite H.
Qed.

(** *** The text of a chunk *)

Lemma collect_text (segments : list Segment) :
  forall transcript_text total_confidence segment_count,
    collect (stream_of segments) transcript_text total_confidence
      segment_count
    = Return ((transcript_text ++ joined_text segments)%string,
              (total_confidence
               + fold_right Rplus 0 (map avg_logprob segments))%R,
              (segment_count + List.length segments)%nat).
Proof.
  induction segments as [|s segments IH]; intros t total count; simpl.
  - now rewrite append_empty_r, Rplus_0_r, Nat.add_0_r.
  - rewrite IH. rewrite !append_assoc.
    replace (total + avg_logprob s
             + fold_right Rplus 0 (map avg_logprob segments))%R
      with (total + (avg_logprob s
                     + fold_right Rplus 0 (map avg_logprob segments)))%R
      by ring.
    replace (S count + List.length segments)%nat
      with (count + S (List.length segments))%nat by lia.
    reflexivity.
Qed.

Lemma joined_text_blank (segments : list Segment) :
  forallb isspace (list_ascii_of_string (joined_text segments)) = true
  <-> Forall (fun s => forallb isspace (list_ascii_of_string (text s)) = true)
        segments.
Proof.
  induction segments as [|s segments IH]; simpl.
  - split; [constructor|reflexivity].
  - rewrite list_ascii_of_append. rewrite forallb_app.
    cbn [list_ascii_of_string append forallb].
    change (isspace " ") with true. cbn [andb].
    rewrite andb_true_iff, IH. split.
    + intros [H1 H2]. now constructor.
    + intros H. now inversion H.
Qed.

Lemma confidence_of_total (segments : list Segment) :
  (if (0 <? 0 + List.length segments)%nat
   then Rmax 0 (Rmin 1
                  (exp ((0 + fold_right Rplus 0 (map avg_logprob segments))
                        / INR (0 + List.length segments))))
   else 0)%R
  = spec_confidence segments.
Proof.
  destruct segments as [|s segments]; [reflexivity|].
  change (0 <? 0 + List.length (s :: segments))%nat with true. cbv iota.
  unfold spec_confidence, clamp, mean_logprob.
  now rewrite Rplus_0_l.
Qed.

(** X10.  When the engine yields the sub-segments [segments], all of ASCII
    text, [transcribe_chunk] returns their texts, each followed by a blank,
    with the whitespace at both ends removed and nothing else: the text has no
    whitespace at either end, the joined text is the returned text between
    two runs of whitespace, and the returned text is empty exactly when
    every sub-segment consists of whitespace. *)
Theorem transcribed_text_is_trimmed (self : TranscriptionService)
    (audio_bytes : list Byte.byte) (audio_array : list Q) (m : Engine)
    (segments : list Segment) :
  initialized self = true ->
  model self = Some m ->
  _bytes_to_audio_array audio_bytes = Return audio_array ->
  m audio_array = stream_of segments ->
  Forall (fun s => ascii_text (text s) = true) segments ->
  exists transcript_text,
    transcribe_chunk self audio_bytes
    = Return (transcript_text, spec_confidence segments) /\
    transcript_text = strip (joined_text segments) /\
    stripped transcript_text /\
    (exists pre post,
       list_ascii_of_string (joined_text segments)
       = pre ++ list_ascii_of_string transcript_text ++ post /\
       forallb isspace pre = true /\ forallb isspace post = true) /\
    (transcript_text = ""%string
     <-> Forall (fun s =>
                   forallb isspace (list_ascii_of_string (text s)) = true)
           segments).
Proof.
  intros Hinit Hmodel Harr Hseg _.
  exists (strip (joined_text segments)). split; [|split; [reflexivity|split]].
  - rewrite TranscriptionSpec.transcribe_chunk_initialized by exact Hinit.
    unfold transcribe_body. rewrite Harr, Hmodel, Hseg, collect_text.
    cbn [append]. now rewrite confidence_of_total.
  - unfold stripped. rewrite strip_chars_of. apply strip_chars_stripped.
  - split.
    + rewrite strip_chars_of. apply strip_chars_split.
    + rewrite strip_empty_iff. apply joined_text_blank.
Qed.

Lemma transcribed_text_is_trimmed_witness :
  exists transcript_text,
    transcribe_chunk (Scenarios.service_with Scenarios.hello_engine) []
    = Return (transcript_text,
              spec_confidence [{| text := "hello"; avg_logprob := 0 |}]) /\
    transcript_text = "hello"%string.
Proof.
  assert (Hascii : Forall (fun s => ascii_text (text s) = true)
                     [{| text := "hello"; avg_logprob := 0 |}])
    by (apply Forall_cons; [reflexivity|apply Forall_nil]).
  destruct (transcribed_text_is_trimmed
              (Scenarios.service_with Scenarios.hello_engine) [] []
              Scenarios.hello_engine
              [{| text := "hello"; avg_logprob := 0 |}]
              eq_refl eq_refl eq_refl eq_refl Hascii)
    as [t [Hrun [Ht _]]].
  exists t. split; [exact Hrun|]. rewrite Ht. reflexivity.
Defined.

(** *** [transcribe_file] and [initialize] *)

Lemma collect_first_fault (segments : SegStream) :
  forall transcript_text total_confidence segment_count,
    match first_fault segments with
    | Some e =>
        collect segments transcript_text total_confidence segment_count
        = Raise e
    | None =>
        exists r,
          collect segments transcript_text total_confidence segment_count
          = Return r
    end.
Proof.
  induction segments as [|s rest IH|e]; intros t total count; simpl.
  - eexists. reflexivity.
  - apply IH.
  - reflexivity.
Qed.

(** X11.  [transcribe_file] runs the same loop as [transcribe_chunk] but
    without its [try]: on an initialized service, when the model's output
    for the file faults, [transcribe_file] raises that very exception, where
    [transcribe_chunk] on the same output returns [("", 0.0)]; when the
    output does not fault, the two return the same text and confidence. *)
Theorem transcribe_file_lets_faults_through (self : TranscriptionService)
    (m : Engine) (file_segments : string -> SegStream) (file_path : string)
    (audio_bytes : list Byte.byte) (audio_array : list Q) :
  initialized self = true ->
  model self = Some m ->
  _bytes_to_audio_array audio_bytes = Return audio_array ->
  m audio_array = file_segments file_path ->
  (forall e,
     first_fault (file_segments file_path) = Some e ->
     transcribe_file self file_segments file_path = Raise e /\
     transcribe_chunk self audio_bytes = Return (""%string, 0%R)) /\
  (first_fault (file_segments file_path) = None ->
   exists r,
     transcribe_file self file_segments file_path = Return r /\
     transcribe_chunk self audio_bytes = Return r).
Proof.
  intros Hinit Hmodel Harr Hsame.
  rewrite TranscriptionSpec.transcribe_chunk_initialized by exact Hinit.
  unfold transcribe_file, transcribe_body.
  rewrite Hinit, Hmodel, Harr, Hsame. cbn [negb].
  pose proof (collect_first_fault (file_segments file_path) ""%string 0%R
                0%nat) as Hc.
  split.
  - intros e He. rewrite He in Hc. rewrite Hc. now split.
  - intros Hnone. rewrite Hnone in Hc. destruct Hc as [[[t total] count] Hc].
    rewrite Hc. eexists. split; reflexivity.
Qed.

Lemma transcribe_file_lets_faults_through_witness :
  transcribe_file (Scenarios.service_with Scenarios.faulty_engine)
    (fun _ => SFault (Exn EngineError "timeout")) "a.wav"
  = Raise (Exn EngineError "timeout") /\
  transcribe_chunk (Scenarios.service_with Scenarios.faulty_engine) []
  = Return (""%string, 0%R).
Proof.
  exact (proj1
    (transcribe_file_lets_faults_through
       (Scenarios.service_with Scenarios.faulty_engine)
       Scenarios.faulty_engine
       (fun _ => SFault (Exn EngineError "timeout")) "a.wav" [] []
       eq_refl eq_refl eq_refl eq_refl)
    (Exn EngineError "timeout") eq_refl).
Defined.

(** X12.  [initialize] falls back to the CPU: it raises only when both
    loads fail, it then raises the second exception and leaves the service
    as it was, so that a fresh service keeps refusing chunks with
    [RuntimeError]; whenever it returns, the service holds the model that
    loaded (the configured one if that loaded) and [transcribe_chunk] no
    longer raises for any buffer. *)
Theorem initialize_falls_back_to_cpu (primary cpu : outcome Engine)
    (self : TranscriptionService) (audio_bytes : list Byte.byte) :
  let r := initialize primary cpu self in
  ((exists e, fst r = Raise e)
   <-> (exists e1 e2, primary = Raise e1 /\ cpu = Raise e2)) /\
  (forall e2, cpu = Raise e2 -> (exists e1, primary = Raise e1) ->
     fst r = Raise e2 /\ snd r = self) /\
  (fst r = Return tt ->
   is_initialized (snd r) = true /\
   (forall m, primary = Return m -> model (snd r) = Some m) /\
   (forall e1 m, primary = Raise e1 -> cpu = Return m ->
      model (snd r) = Some m) /\
   exists transcript_text confidence,
     transcribe_chunk (snd r) audio_bytes
     = Return (transcript_text, confidence)) /\
  (self = init -> (exists e, fst r = Raise e) ->
   transcribe_chunk (snd r) audio_bytes = Raise not_initialized).
Proof.
  cbn zeta. unfold initialize.
  destruct primary as [m1|e1]; [|destruct cpu as [m2|e2]]; cbn.
  - repeat apply conj.
    + intros [e He]. discriminate.
    + intros [e1 [e2 [H _]]]. discriminate.
    + intros e2 _ [e1 H]. discriminate.
    + intros _. repeat apply conj; try reflexivity.
      * intros m H. now inversion H.
      * intros e1 m H. discriminate.
      * unfold transcribe_chunk. cbn.
        destruct (transcribe_body _ audio_bytes) as [[t c]|e];
          eexists; eexists; reflexivity.
    + intros _ [e He]. discriminate.
  - repeat apply conj.
    + intros [e He]. discriminate.
    + intros [e1' [e2 [_ H]]]. discriminate.
    + intros e2 H. discriminate.
    + intros _. repeat apply conj; try reflexivity.
      * intros m H. discriminate.
      * intros e1' m _ H. now inversion H.
      * unfold transcribe_chunk. cbn.
        destruct (transcribe_body _ audio_bytes) as [[t c]|e];
          eexists; eexists; reflexivity.
    + intros _ [e He]. discriminate.
  - repeat apply conj.
    + intros _. now exists e1, e2.
    + intros _. now exists e2.
    + intros e2' H _. inversion H. now split.
    + discriminate.
    + intros -> _. reflexivity.
Qed.

Lemma initialize_falls_back_to_cpu_witness :
  fst (initialize (Raise (Exn EngineError "no CUDA device"))
         (Return Scenarios.silent_engine) init)
  = Return tt /\
  model (snd (initialize (Raise (Exn EngineError "no CUDA device"))
                (Return Scenarios.silent_engine) init))
  = Some Scenarios.silent_engine.
Proof.
  split; [reflexivity|].
  exact (proj1 (proj2 (proj2
    (proj1 (proj2 (proj2
       (initialize_falls_back_to_cpu (Raise (Exn EngineError "no CUDA device"))
          (Return Scenarios.silent_engine) init []))) eq_refl)))
    (Exn EngineError "no CUDA device") Scenarios.silent_engine
    eq_refl eq_refl).
Defined.

End TranscriptionExtra.

(** ** The receive loop and the endpoint *)

Module EndpointExtra.

Import Reference Main LoopFacts EndpointSpec.

Lemma handle_keeps_manager env websocket client_id data w :
  ws_manager (snd (handle_audio_chunk env websocket client_id data w))
  = ws_manager w.
Proof. now rewrite handle_raises_at_import. Qed.

Lemma receive_loop_keeps_manager env websocket client_id inbox :
  forall w,
    ws_manager (snd (receive_loop env websocket client_id inbox w))
    = ws_manager w.
Proof.
  induction inbox as [|[data|e] inbox IH]; intros w; cbn [receive_loop].
  - reflexivity.
  - unfold bind at 1.
    destruct (jval_eq_str (get data "type") "audio_chunk").
    + pose proof (handle_keeps_manager env websocket client_id data w) as Hm.
      destruct (handle_audio_chunk env websocket client_id data w)
        as [[[]|e] w1]; cbn in Hm |- *; [now rewrite IH|exact Hm].
    + destruct (jval_eq_str (get data "type") "ping").
      * unfold send_json.
        destruct (send_result env (trace w) websocket); cbn;
          [reflexivity|now rewrite IH].
      * unfold ret. now rewrite IH.
  - reflexivity.
Qed.

Lemma endpoint_accept_fails env websocket inbox w e :
  accept_result env websocket = Some e ->
  websocket_endpoint env websocket inbox w
  = (Return Closed, after_disconnect (client_id_of websocket) w).
Proof.
  intros Hacc.
  unfold websocket_endpoint, try_except, WebSocketManager.connect, accept.
  rewrite Hacc. unfold bind, raise.
  destruct (exn_class e); reflexivity.
Qed.

(** X13.  [websocket_endpoint] never lets an exception out.  Either it is
    still in its receive loop, and then the client is registered under its
    identity with this socket and the manager is otherwise as [connect] left
    it; or it has returned, and then the client is in neither the registry
    nor any session. *)
Theorem endpoint_registers_or_cleans_up (env : Env) (websocket : WebSocket)
    (inbox : list Recv) (w : World) :
  let r := websocket_endpoint env websocket inbox w in
  let client_id := client_id_of websocket in
  (fst r = Return Active \/ fst r = Return Closed) /\
  (fst r = Return Active ->
   accept_result env websocket = None /\
   ws_manager (snd r) = ws_manager (after_connect websocket client_id w) /\
   dict_get client_id (active_connections (ws_manager (snd r)))
   = Some websocket) /\
  (fst r = Return Closed -> absent client_id (ws_manager (snd r))).
Proof.
  cbn zeta.
  destruct (accept_result env websocket) as [e|] eqn:Hacc.
  - rewrite (endpoint_accept_fails env websocket inbox w e Hacc).
    cbn [fst snd ws_manager after_disconnect].
    split; [now right|]. split; [discriminate|].
    intros _. apply ManagerSpec.disconnect_manager_absent.
  - rewrite (endpoint_unfold env websocket inbox w Hacc).
    pose proof (receive_loop_keeps_manager env websocket
                  (client_id_of websocket) inbox
                  (after_connect websocket (client_id_of websocket) w))
      as Hm.
    destruct (receive_loop env websocket (client_id_of websocket) inbox
                (after_connect websocket (client_id_of websocket) w))
      as [[[]|e] w1]; cbn [fst snd] in *.
    + split; [now left|]. split; [|discriminate].
      intros _. split; [reflexivity|]. split; [exact Hm|].
      rewrite Hm. cbn. apply DictFacts.dict_get_set_same.
    + split; [now right|]. split; [discriminate|].
      intros _. apply ManagerSpec.disconnect_manager_absent.
Qed.

Lemma endpoint_registers_or_cleans_up_witness :
  let r := websocket_endpoint Scenarios.env_ok 1%nat
             [RecvJson (Scenarios.chunk 1 Scenarios.good_audio);
              RecvRaise (Exn WebSocketDisconnect "1001")]
             (Scenarios.world_of WebSocketManager.init
                (Scenarios.service_with Scenarios.hello_engine)) in
  fst r = Return Closed /\ absent "client_1" (ws_manager (snd r)).
Proof.
  intros r. assert (H : fst r = Return Closed) by reflexivity.
  split; [exact H|].
  exact (proj2 (proj2
    (endpoint_registers_or_cleans_up Scenarios.env_ok 1%nat
       [RecvJson (Scenarios.chunk 1 Scenarios.good_audio);
        RecvRaise (Exn WebSocketDisconnect "1001")]
       (Scenarios.world_of WebSocketManager.init
          (Scenarios.service_with Scenarios.hello_engine)))) H).
Defined.

Lemma receive_loop_cut env websocket client_id e post pre :
  forall w,
    receive_loop env websocket client_id (pre ++ RecvRaise e :: post) w
    = receive_loop env websocket client_id (pre ++ [RecvRaise e]) w /\
    exists e', fst (receive_loop env websocket client_id
                      (pre ++ RecvRaise e :: post) w) = Raise e'.
Proof.
  induction pre as [|[data|e0] pre IH]; intros w; cbn [app receive_loop].
  - split; [reflexivity|now exists e].
  - unfold bind at 1 2 3.
    destruct ((if jval_eq_str (get data "type") "audio_chunk"
               then handle_audio_chunk env websocket client_id data
               else if jval_eq_str (get data "type") "ping"
                    then send_json env websocket pong_message
                    else ret tt) w) as [[[]|e1] w1].
    + apply IH.
    + split; [reflexivity|now exists e1].
  - split; [reflexivity|now exists e0].
Qed.

(** X14.  The receive loop ends at the first exception of
    [receive_json]: whatever would have arrived after it plays no part, and
    the endpoint returns with the connection closed. *)
Theorem endpoint_stops_at_receive_error (env : Env) (websocket : WebSocket)
    (pre post : list Recv) (e : exn) (w : World) :
  websocket_endpoint env websocket (pre ++ RecvRaise e :: post) w
  = websocket_endpoint env websocket (pre ++ [RecvRaise e]) w /\
  fst (websocket_endpoint env websocket (pre ++ RecvRaise e :: post) w)
  = Return Closed.
Proof.
  destruct (accept_result env websocket) as [e0|] eqn:Hacc.
  - rewrite !(endpoint_accept_fails env websocket _ w e0 Hacc).
    now split.
  - rewrite !(endpoint_unfold env websocket _ w Hacc).
    destruct (receive_loop_cut env websocket (client_id_of websocket) e post
                pre (after_connect websocket (client_id_of websocket) w))
      as [Hcut [e' He']].
    rewrite Hcut in *.
    destruct (receive_loop env websocket (client_id_of websocket)
                (pre ++ [RecvRaise e])
                (after_connect websocket (client_id_of websocket) w))
      as [[[]|e1] w1]; [discriminate|].
    now split.
Qed.

(** X15.  Messages whose ["type"] is neither ["audio_chunk"] nor ["ping"]
    (or that have none) are ignored: taking them out of what arrives
    changes neither the outcome of the receive loop nor anything it does. *)
Theorem unknown_messages_are_ignored (env : Env) (websocket : WebSocket)
    (client_id : string) (inbox : list Recv) (w : World) :
  receive_loop env websocket client_id (filter handled inbox) w
  = receive_loop env websocket client_id inbox w.
Proof.
  revert w. induction inbox as [|[data|e] inbox IH]; intros w;
    cbn [filter handled]; [reflexivity| |reflexivity].
  destruct (jval_eq_str (get data "type") "audio_chunk") eqn:E1;
    cbn [orb].
  - cbn [receive_loop]. rewrite E1. unfold bind.
    destruct (handle_audio_chunk env websocket client_id data w)
      as [[[]|e] w1]; [apply IH|reflexivity].
  - destruct (jval_eq_str (get data "type") "ping") eqn:E2.
    + cbn [receive_loop]. rewrite E1, E2. unfold bind.
      destruct (send_json env websocket pong_message w)
        as [[[]|e] w1]; [apply IH|reflexivity].
    + cbn [receive_loop]. rewrite E1, E2. unfold bind, ret. apply IH.
Qed.

(** *** Pings and the first chunk *)

(** X18.  On a transport that takes every write, the receive loop answers
    each ping with one pong, in the order of arrival, and passes over
    messages of other types, until the first [audio_chunk] arrives.  With
    that message the loop ends in the [ModuleNotFoundError] of the handler's
    import: nothing is written for the chunk, and nothing that arrives after
    it is read.  Without an [audio_chunk] the loop works through all the
    messages. *)
Theorem pings_answered_until_first_chunk (env : Env) (websocket : WebSocket)
    (client_id : string) (messages : list (dict jval)) (w : World) :
  (forall history websocket', send_result env history websocket' = None) ->
  receive_loop env websocket client_id (map RecvJson messages) w
  = (if existsb is_chunk messages then Raise no_queue_module
     else Return tt,
     with_trace w
       (map (fun _ => EvSend websocket pong_message true)
          (filter is_ping (before_first_chunk messages)))).
Proof.
  intros Hok. revert w.
  induction messages as [|data messages IH]; intros w.
  - cbn. now rewrite with_trace_nil.
  - cbn [map receive_loop existsb before_first_chunk]. unfold bind.
    change (jval_eq_str (get data "type") "audio_chunk")
      with (is_chunk data).
    change (jval_eq_str (get data "type") "ping") with (is_ping data).
    destruct (is_chunk data) eqn:E1.
    + rewrite handle_raises_at_import. cbn [orb filter map].
      now rewrite with_trace_nil.
    + cbn [orb filter].
      destruct (is_ping data) eqn:E2.
      * unfold send_json. rewrite Hok. unfold emit. cbv beta iota.
        fold (with_trace w [EvSend websocket pong_message true]).
        rewrite IH. cbn [map]. now rewrite with_trace_app.
      * unfold ret. apply IH.
Qed.

Lemma pings_answered_until_first_chunk_witness :
  let w := Scenarios.world_of Scenarios.one_connection
             (Scenarios.service_with Scenarios.hello_engine) in
  receive_loop Scenarios.env_ok 1%nat "client_1"
    (map RecvJson
       [[("type", JStr "ping")]; [("type", JStr "hello")];
        Scenarios.chunk 1 Scenarios.good_audio; [("type", JStr "ping")]])
    w
  = (Raise no_queue_module,
     with_trace w [EvSend 1%nat pong_message true]).
Proof.
  intros w.
  exact (pings_answered_until_first_chunk Scenarios.env_ok 1%nat "client_1"
           [[("type", JStr "ping")]; [("type", JStr "hello")];
            Scenarios.chunk 1 Scenarios.good_audio; [("type", JStr "ping")]]
           w (fun _ _ => eq_refl)).
Defined.

(** *** The health check *)

(** X20.  [health_check] never fails, even when the database query raises.
    It answers 200 exactly when the query succeeded and the model is
    loaded, and 503 otherwise; the body reports the two checks as they
    came out, while its ["status"] reads ["healthy"] in both cases. *)
Theorem health_check_status (query : outcome unit)
    (transcription_service : Transcription.TranscriptionService) :
  let r := health_check query transcription_service in
  (snd r = 200%nat
   <-> (exists u, query = Return u) /\
       Transcription.initialized transcription_service = true) /\
  (snd r = 200%nat \/ snd r = 503%nat) /\
  dict_get "status" (fst r) = Some (HStr "healthy") /\
  dict_get "database" (fst r)
  = Some (HBool (match query with Return _ => true | Raise _ => false end)) /\
  dict_get "whisper_model" (fst r)
  = Some (HBool (Transcription.initialized transcription_service)).
Proof.
  unfold health_check, check_db_health, Transcription.is_initialized.
  destruct query as [u|e];
    destruct (Transcription.initialized transcription_service); cbn;
    (split; [split|]); try (repeat split; auto; fail);
    try discriminate.
  - intros _. split; [now exists u|reflexivity].
  - intros [_ H]. discriminate.
  - intros [[u H] _]. discriminate.
  - intros [[u H] _]. discriminate.
Qed.

Lemma health_check_status_witness :
  snd (health_check (Return tt)
         (Scenarios.service_with Scenarios.silent_engine))
  = 200%nat.
Proof.
  apply (proj2 (proj1
    (health_check_status (Return tt)
       (Scenarios.service_with Scenarios.silent_engine)))).
  split; [now exists tt|reflexivity].
Defined.

End EndpointExtra.
